(** * A CORS middleware for plain Node (src/index.ts)

    Shallow embedding of the option resolution ([expressMiddlewareFactory],
    [asyncHandlerFactory]) and of the header engine ([corsHandler]), followed
    by the properties of the specification that concern them.

    The code talks to three collaborators it does not own: the response
    object [res], the continuation [next] and the promise callbacks
    [resolve]/[reject].  Every call it makes on them is recorded, in program
    order, in the [log] of the [World]; option objects live in the [heap] of
    the [World] and are referred to by address. *)

From Stdlib Require Import ZArith List Ascii String Bool Lia DecimalString.
From stdpp Require Import gmap strings list fin_maps.

Local Open Scope string_scope.
Local Open Scope Z_scope.
Local Open Scope list_scope.

(** ** JavaScript values and primitives used by the source *)

Module JS.

(** Values of type [any] (the [err] arguments, the [credentials] field as
    it may arrive from untyped callers). *)
Inductive Value : Type :=
| VUndefined
| VNull
| VBool (b : bool)
| VNum (n : Z)
| VStr (s : string)
| VError (message : string).

Definition nonempty (s : string) : bool :=
  match s with EmptyString => false | String _ _ => true end.

(** ToBoolean. *)
Definition truthy (v : Value) : bool :=
  match v with
  | VUndefined | VNull => false
  | VBool b => b
  | VNum n => negb (n =? 0)
  | VStr s => nonempty s
  | VError _ => true
  end.

(** [v === true] *)
Definition is_true (v : Value) : bool :=
  match v with VBool true => true | _ => false end.

(** A regular expression without the [g] and [y] flags: [test] is a
    predicate on the subject string and keeps no position between calls.
    RegExp objects that carry one of these flags, and the position they
    keep, are the subject of [Flagged] below. *)
Record RegExp : Type := mkRegExp { source : string; matches : string -> bool }.

(** [r.test(s)] where [s : string | undefined]; the argument is converted
    with ToString, so [undefined] is tested as the text [undefined]. *)
Definition test (r : RegExp) (s : option string) : bool :=
  matches r (match s with Some x => x | None => "undefined" end).

(** String.prototype.toUpperCase on ASCII text (request methods). *)
Definition upper (c : ascii) : ascii :=
  let n := nat_of_ascii c in
  if (Nat.leb 97 n && Nat.leb n 122)%bool then ascii_of_nat (n - 32) else c.

Fixpoint toUpperCase (s : string) : string :=
  match s with
  | EmptyString => EmptyString
  | String c s' => String (upper c) (toUpperCase s')
  end.

(** Array.prototype.join on an array of strings. *)
Definition join (sep : string) (l : list string) : string := String.concat sep l.

(** Number.prototype.toString on an integer (decimal digits, a leading
    [-] for negatives), as JavaScript prints integers below 10^21. *)
Definition Number_toString (n : Z) : string := NilZero.string_of_int (Z.to_int n).

End JS.
Import JS.

(** ** Options *)

(** A property of an object literal: not written at all, written with the
    value [undefined], or written with a value.  Reading the property gives
    [undefined] in the first two cases; spreading the object copies the
    property in the last two. *)
Inductive Slot (A : Type) : Type :=
| Absent
| Undefined
| Present (a : A).
Arguments Absent {A}.
Arguments Undefined {A}.
Arguments Present {A} a.

Definition get {A} (s : Slot A) : option A :=
  match s with Present a => Some a | _ => None end.

Definition own {A} (s : Slot A) : bool :=
  match s with Absent => false | _ => true end.

(** [boolean | string | RegExp], the members of an origin list. *)
Inductive OriginItem : Type :=
| OBool (b : bool)
| OStr (s : string)
| ORegExp (r : RegExp).

(** [type Origin = boolean | string | RegExp | (string | RegExp)[]] *)
Inductive Origin : Type :=
| Single (o : OriginItem)
| Array (l : list OriginItem).

Inductive Timing : Type := Sync | Async.

(** What a user callback that keeps to the callback protocol does with the
    completion function it is given: it calls it once, either before
    returning ([Sync]) or from a later turn of the event loop ([Async]), with
    an error and a result.  A function that never calls the completion
    function, or calls it more than once, is not among the callbacks
    described here; what is proved of callbacks is proved of those that
    answer exactly once. *)
Record Completion (A : Type) : Type :=
  mkCompletion { timing : Timing; error : Value; result : A }.
Arguments mkCompletion {A}.
Arguments timing {A}.
Arguments error {A}.
Arguments result {A}.

(** [type OriginCallback = (origin, next: (err, origin) => void) => void];
    the callback may hand back [undefined] instead of an origin. *)
Definition OriginCallback : Type := option string -> Completion (option Origin).

(** [Origin | OriginCallback], told apart by [isOriginCallback]
    ([origin instanceof Function]). *)
Inductive OriginSetting : Type :=
| Fixed (o : Origin)
| Callback (f : OriginCallback).

(** [string | string[]] *)
Inductive StringOrArray : Type :=
| Str (s : string)
| Arr (l : list string).

(** [number | string] *)
Inductive NumberOrString : Type :=
| Num (n : Z)
| NStr (s : string).

(** [interface Options], with the type of the [origin] field left open: the
    middleware reads it as [Origin | OriginCallback], the handler receives
    the mapped type in which it is an [Origin]. *)
Record OptionsOf (O : Type) : Type := mkOptions {
  origin : Slot O;
  methods : Slot StringOrArray;
  allowedHeaders : Slot StringOrArray;
  headers : Slot StringOrArray;
  exposedHeaders : Slot StringOrArray;
  credentials : Slot Value;
  maxAge : Slot NumberOrString;
  preflightContinue : Slot bool;
  optionsSuccessStatus : Slot Z
}.
Arguments mkOptions {O}.
Arguments origin {O}.
Arguments methods {O}.
Arguments allowedHeaders {O}.
Arguments headers {O}.
Arguments exposedHeaders {O}.
Arguments credentials {O}.
Arguments maxAge {O}.
Arguments preflightContinue {O}.
Arguments optionsSuccessStatus {O}.

Abbreviation Options := (OptionsOf OriginSetting).
Abbreviation ResolvedOptions := (OptionsOf Origin).

(** [{}] *)
Definition empty {O} : OptionsOf O :=
  mkOptions Absent Absent Absent Absent Absent Absent Absent Absent Absent.

(** [const defaults = { origin: "*", methods: "GET,HEAD,PUT,PATCH,POST,DELETE",
    preflightContinue: false, optionsSuccessStatus: 204 }] *)
Definition defaults : Options :=
  mkOptions (Present (Fixed (Single (OStr "*"))))
            (Present (Str "GET,HEAD,PUT,PATCH,POST,DELETE"))
            Absent Absent Absent Absent Absent
            (Present false)
            (Present 204).

(** ToBoolean on the values the option fields can hold. *)
Definition truthy_item (o : OriginItem) : bool :=
  match o with
  | OBool b => b
  | OStr s => nonempty s
  | ORegExp _ => true
  end.

Definition truthy_origin (o : Origin) : bool :=
  match o with
  | Single i => truthy_item i
  | Array _ => true
  end.

Definition truthy_setting (o : OriginSetting) : bool :=
  match o with
  | Fixed og => truthy_origin og
  | Callback _ => true
  end.

Definition truthy_list (h : StringOrArray) : bool :=
  match h with
  | Str s => nonempty s
  | Arr _ => true
  end.

(** ** The request *)

Module Req.
(** [IncomingMessage]: the method and the header object (lower-case keys). *)
Record IncomingMessage : Type := mk {
  method : option string;
  headers : gmap string string
}.
End Req.
Abbreviation IncomingMessage := Req.IncomingMessage.

(** ** The world: heap of option objects, log of calls on the collaborators *)

Inductive Event : Type :=
| SetHeader (name value : string)   (* res.setHeader(name, value) *)
| Vary (field : string)             (* vary(res, field) *)
| StatusCode (code : option Z)      (* res.statusCode = code *)
| End                               (* res.end() *)
| Next (err : Value)                (* next(err) *)
| Resolve                           (* resolve() *)
| Reject (err : Value).             (* reject(err) *)

Definition loc : Type := nat.

Record World : Type := mkWorld {
  heap : list Options;
  log : list Event
}.

(** A computation returns a value and a new world, together with the work
    it has postponed to later turns of the event loop. *)
Definition M (A : Type) : Type := World -> A * World * (World -> World).

Definition ret {A} (a : A) : M A := fun w => (a, w, fun w' => w').

Definition bind {A B} (m : M A) (f : A -> M B) : M B :=
  fun w =>
    let '(a, w1, d1) := m w in
    let '(b, w2, d2) := f a w1 in
    (b, w2, fun w' => d2 (d1 w')).

(** Run a computation to the end: its synchronous part, then what it
    postponed. *)
Definition run {A} (m : M A) (w : World) : World :=
  let '(_, w1, d) := m w in d w1.

(** A callback that fires in a later turn. *)
Definition later (m : M unit) : M unit :=
  fun w => (tt, w, fun w' => run m w').

Declare Scope cors_scope.
Delimit Scope cors_scope with cors.
Notation "x <- m ;; k" := (bind m (fun x => k))
  (at level 100, m at next level, right associativity) : cors_scope.
Notation "m ;; k" := (bind m (fun _ => k))
  (at level 100, right associativity) : cors_scope.
Local Open Scope cors_scope.

Definition emit (e : Event) : M unit :=
  fun w => (tt, mkWorld (heap w) (log w ++ [e]), fun w' => w').

(** A new object is placed at the first unused address.  The source never
    assigns to a property of an options object, so the heap has no update. *)
Definition alloc (o : Options) : M loc :=
  fun w => (length (heap w), mkWorld (heap w ++ [o]) (log w), fun w' => w').

(** Reading through a reference; an address that holds nothing reads as
    [{}]. *)
Definition load (l : loc) : M Options :=
  fun w => (match heap w !! l with Some o => o | None => empty end, w, fun w' => w').

(** The calls on the response. *)
Definition setHeader (name value : string) : M unit := emit (SetHeader name value).
Definition vary (field : string) : M unit := emit (Vary field).
Definition set_statusCode (code : option Z) : M unit := emit (StatusCode code).
Definition end_ : M unit := emit End.

(** ** The handler, after options and options.origin are resolved *)

Section corsHandler.

Variable options : ResolvedOptions.
Variable req : IncomingMessage.
Variable next : Value -> M unit.

(** [typeof s === "string" || s instanceof String]: the text of a string
    origin, nothing for the other kinds. *)
Definition isString (s : Origin) : option string :=
  match s with
  | Single (OStr text) => Some text
  | _ => None
  end.

Definition allowed (origin : option string) (originAllowed : OriginItem) : bool :=
  match originAllowed with
  | ORegExp r => test r origin
  | OStr s =>
      match origin with
      | Some o => String.eqb o s
      | None => false
      end
  | OBool b => b
  end.

(** [Array.prototype.find] gives back the first member accepted by
    [allowed] (or [undefined]); [!!] then takes the truth value of that
    member. *)
Definition isOriginAllowed (origin : option string) (originAllowed : Origin) : bool :=
  match originAllowed with
  | Array l =>
      match List.find (allowed origin) l with
      | Some found => truthy_item found
      | None => false
      end
  | Single o => allowed origin o
  end.

(** The truth value of a [string | undefined]: the string itself when it is
    not empty. *)
Definition truthy_string (s : option string) : option string :=
  match s with
  | Some text => if nonempty text then Some text else None
  | None => None
  end.

Definition originHeaders : M unit :=
  let requestOrigin := Req.headers req !! "origin" in
  match get (origin options) with
  | None =>
      (* !origin *)
      setHeader "Access-Control-Allow-Origin" "*"
  | Some origin =>
      if negb (truthy_origin origin)
         || match isString origin with Some s => String.eqb s "*" | None => false end
      then
        (* allow any origin *)
        setHeader "Access-Control-Allow-Origin" "*"
      else
        match isString origin with
        | Some fixed =>
            (* fixed origin *)
            vary "Origin" ;;
            setHeader "Access-Control-Allow-Origin" fixed
        | None =>
            (* reflect origin, or deny *)
            let allowedOrigin :=
              if isOriginAllowed requestOrigin origin then requestOrigin else None in
            match truthy_string allowedOrigin with
            | Some allowedOrigin =>
                vary "Origin" ;;
                setHeader "Access-Control-Allow-Origin" allowedOrigin
            | None => ret tt
            end
        end
  end.

Definition credentialsHeaders : M unit :=
  match get (credentials options) with
  | Some v =>
      if is_true v then setHeader "Access-Control-Allow-Credentials" "true"
      else ret tt
  | None => ret tt
  end.

(** [if (x instanceof Array) x = x.join(",")] *)
Definition stringify (x : StringOrArray) : string :=
  match x with
  | Arr l => join "," l
  | Str s => s
  end.

Definition methodsHeaders : M unit :=
  let methods := option_map stringify (get (methods options)) in
  match truthy_string methods with
  | Some methods => setHeader "Access-Control-Allow-Methods" methods
  | None => ret tt
  end.

(** [a || b] on two optional header lists. *)
Definition or_else (a b : option StringOrArray) : option StringOrArray :=
  match a with
  | Some x => if truthy_list x then a else b
  | None => b
  end.

Definition truthy_headers (h : option StringOrArray) : option StringOrArray :=
  match h with
  | Some x => if truthy_list x then Some x else None
  | None => None
  end.

Definition allowedHeaders_ : M unit :=
  let headers := or_else (get (allowedHeaders options)) (get (headers options)) in
  match truthy_headers headers with
  | Some headers =>
      let headers := stringify headers in
      if nonempty headers (* headers.length *)
      then setHeader "Access-Control-Allow-Headers" headers
      else ret tt
  | None =>
      match truthy_string (Req.headers req !! "access-control-request-headers") with
      | Some requested =>
          (* .headers wasn't specified, so reflect the request headers *)
          vary "Access-Control-Request-Headers" ;;
          setHeader "Access-Control-Allow-Headers" requested
      | None => ret tt
      end
  end.

(** [(typeof maxAge === "number" || maxAge) && maxAge.toString()] *)
Definition maxAge_string (maxAge : option NumberOrString) : option string :=
  match maxAge with
  | Some (Num n) => Some (Number_toString n)
  | Some (NStr s) => if nonempty s then Some s else None
  | None => None
  end.

Definition cacheHeaders : M unit :=
  let maxAge := maxAge_string (get (maxAge options)) in
  match truthy_string maxAge with
  | Some maxAge => setHeader "Access-Control-Max-Age" maxAge
  | None => ret tt
  end.

Definition exposedHeaders_ : M unit :=
  match truthy_headers (get (exposedHeaders options)) with
  | Some exposedHeaders =>
      let exposedHeaders := stringify exposedHeaders in
      if nonempty exposedHeaders
      then setHeader "Access-Control-Expose-Headers" exposedHeaders
      else ret tt
  | None => ret tt
  end.

(** [req.method && req.method.toUpperCase && req.method.toUpperCase() === "OPTIONS"] *)
Definition isPreflight : bool :=
  match truthy_string (Req.method req) with
  | Some method => String.eqb (toUpperCase method) "OPTIONS"
  | None => false
  end.

Definition corsHandler : M unit :=
  if isPreflight then
    (* preflight request *)
    originHeaders ;;
    credentialsHeaders ;;
    methodsHeaders ;;
    allowedHeaders_ ;;
    cacheHeaders ;;
    exposedHeaders_ ;;
    if match get (preflightContinue options) with Some b => b | None => false end
    then next VUndefined
    else
      set_statusCode (get (optionsSuccessStatus options)) ;;
      setHeader "Content-Length" "0" ;;
      end_
  else
    (* actual request *)
    originHeaders ;;
    credentialsHeaders ;;
    exposedHeaders_ ;;
    next VUndefined.

End corsHandler.

(** ** The middleware: resolving options, then options.origin *)

(** [{ ...a, ...b }]: every property that [b] owns replaces the one of [a]. *)
Definition layer {A} (a b : Slot A) : Slot A :=
  match b with
  | Absent => a
  | _ => b
  end.

Definition spread (a b : Options) : Options :=
  mkOptions (layer (origin a) (origin b))
            (layer (methods a) (methods b))
            (layer (allowedHeaders a) (allowedHeaders b))
            (layer (headers a) (headers b))
            (layer (exposedHeaders a) (exposedHeaders b))
            (layer (credentials a) (credentials b))
            (layer (maxAge a) (maxAge b))
            (layer (preflightContinue a) (preflightContinue b))
            (layer (optionsSuccessStatus a) (optionsSuccessStatus b)).

(** [{ ...options, origin }] *)
Definition with_origin {O O'} (options : OptionsOf O) (origin' : O') : OptionsOf O' :=
  mkOptions (Present origin')
            (methods options) (allowedHeaders options) (headers options)
            (exposedHeaders options) (credentials options) (maxAge options)
            (preflightContinue options) (optionsSuccessStatus options).

(** The module-level constant [defaults] is the first object of the heap. *)
Definition defaults_ref : loc := 0%nat.

Definition boot : World := mkWorld [defaults] [].

(** [type OptionsCallback = (req, next: (err, options) => void) => void] *)
Definition OptionsCallback : Type := IncomingMessage -> Completion loc.

(** [Options | OptionsCallback], the argument of the factories. *)
Inductive CorsOpts : Type :=
| Object (options : loc)
| Function (f : OptionsCallback).

(** Calling a user callback with the completion function [k]. *)
Definition call {A} (c : Completion A) (k : Value -> A -> M unit) : M unit :=
  match timing c with
  | Sync => k (error c) (result c)
  | Async => later (k (error c) (result c))
  end.

(** [{ ...defaults, ...options }]: a new object, built from the two it reads. *)
Definition merge (options : loc) : M loc :=
  d <- load defaults_ref ;;
  o <- load options ;;
  alloc (spread d o).

Section corsMiddleware.

Variable corsOpts : CorsOpts.
Variable req : IncomingMessage.
Variable next : Value -> M unit.

Definition corsMdlwrOrigin (options : loc) (err : Value) (origin : option Origin) : M unit :=
  match origin with
  | Some origin =>
      if truthy err || negb (truthy_origin origin) then next err
      else
        (* corsHandler({ ...options, origin }, req, res, next) *)
        o <- load options ;;
        _ <- alloc (with_origin o (Fixed origin)) ;;
        corsHandler (with_origin o origin) req next
  | None =>
      (* !origin *)
      next err
  end.

Definition corsMdlwrOptions (err : Value) (options : loc) : M unit :=
  if truthy err then next err
  else
    (* options = { ...defaults, ...options } *)
    options <- merge options ;;
    o <- load options ;;
    match get (origin o) with
    | Some origin =>
        if truthy_setting origin then
          match origin with
          | Callback f =>
              (* isOriginCallback(options.origin) *)
              call (f (Req.headers req !! "origin")) (corsMdlwrOrigin options)
          | Fixed origin => corsMdlwrOrigin options VNull (Some origin)
          end
        else ret tt
    | None => ret tt
    end ;;
    next VUndefined.

Definition corsMiddleware : M unit :=
  match corsOpts with
  | Function f => call (f req) corsMdlwrOptions
  | Object options => corsMdlwrOptions VNull options
  end.

End corsMiddleware.

(** [export default function expressMiddlewareFactory(corsOpts)] *)
Definition expressMiddlewareFactory (corsOpts : CorsOpts)
  : IncomingMessage -> (Value -> M unit) -> M unit :=
  corsMiddleware corsOpts.

(** The continuation of a callback-style host. *)
Definition host_next (err : Value) : M unit := emit (Next err).

(** The continuation [asyncHandlerFactory] passes to the middleware:
    [(err) => { if (err) { reject(err); return }; resolve() }]. *)
Definition settle (err : Value) : M unit :=
  if truthy err then emit (Reject err) else emit Resolve.

(** [export function asyncHandlerFactory(corsOpts)] *)
Definition asyncHandlerFactory (corsOpts : CorsOpts) : IncomingMessage -> M unit :=
  let corsMiddleware := expressMiddlewareFactory corsOpts in
  fun req => corsMiddleware req settle.

(** A promise keeps its first settlement; later calls of [resolve] and
    [reject] have no effect. *)
Inductive PromiseState : Type :=
| Pending
| Fulfilled
| Rejected (reason : Value).

Fixpoint promise (calls : list Event) : PromiseState :=
  match calls with
  | [] => Pending
  | Resolve :: _ => Fulfilled
  | Reject reason :: _ => Rejected reason
  | _ :: rest => promise rest
  end.

(** ** Reading the log *)

Definition is_next (e : Event) : bool :=
  match e with Next _ => true | _ => false end.

Definition sets (name : string) (e : Event) : bool :=
  match e with SetHeader n _ => String.eqb n name | _ => false end.

Definition touches_response (e : Event) : bool :=
  match e with
  | SetHeader _ _ | Vary _ | StatusCode _ | End => true
  | _ => false
  end.

Definition actions (options : ResolvedOptions) (req : IncomingMessage) : list Event :=
  log (run (corsHandler options req host_next) (mkWorld [] [])).

(** The calls a computation makes when started in an empty world. *)
Definition trace (m : M unit) : list Event := log (run m (mkWorld [] [])).

(** A computation that only appends calls to the log: it leaves the heap
    alone, postpones nothing, and its calls do not depend on the world. *)
Definition logs_only (m : M unit) : Prop :=
  forall w, m w = (tt, mkWorld (heap w) (log w ++ trace m), fun w' => w').

(** The calls [res.setHeader(name, _)] among a list of calls. *)
Definition header_calls (name : string) (calls : list Event) : list Event :=
  List.filter (sets name) calls.

Definition is_header_call (e : Event) : bool :=
  match e with SetHeader _ _ | Vary _ => true | _ => false end.

(** ** Vocabulary of the specification *)

(** An entry of an origin policy matches a request origin: a string by
    equality, a pattern by its test, [true] always and [false] never. *)
Definition item_matches (o : string) (i : OriginItem) : bool :=
  match i with
  | OStr s => String.eqb o s
  | ORegExp r => matches r o
  | OBool b => b
  end.

Definition any_match (o : string) (policy : Origin) : bool :=
  match policy with
  | Single i => item_matches o i
  | Array l => existsb (item_matches o) l
  end.

(** The policy is a pattern or a list: neither a boolean nor a string. *)
Definition pattern_or_list (policy : Origin) : bool :=
  match policy with
  | Single (ORegExp _) | Array _ => true
  | Single (OBool _) | Single (OStr _) => false
  end.

(** What the origin rule for patterns and lists asks of the handler for a
    request whose Origin header is [o]. *)
Definition origin_rule (options : ResolvedOptions) (req : IncomingMessage) (o : string) : Prop :=
  forall policy,
    get (origin options) = Some policy ->
    pattern_or_list policy = true ->
    (any_match o policy = true ->
       header_calls "Access-Control-Allow-Origin" (actions options req)
         = [SetHeader "Access-Control-Allow-Origin" o]
       /\ In (Vary "Origin") (actions options req))
    /\ (any_match o policy = false ->
       header_calls "Access-Control-Allow-Origin" (actions options req) = []).

(** A header list that is configured and not empty: a string with at least
    one character, an array with at least one member. *)
Definition configured_nonempty (h : option StringOrArray) : bool :=
  match h with
  | Some (Str s) => nonempty s
  | Some (Arr (_ :: _)) => true
  | Some (Arr []) | None => false
  end.

(** The request value is reflected, or nothing is set when there is none. *)
Definition reflects_request (req : IncomingMessage) (calls : list Event) : Prop :=
  match Req.headers req !! "access-control-request-headers" with
  | Some requested =>
      header_calls "Access-Control-Allow-Headers" calls
        = [SetHeader "Access-Control-Allow-Headers" requested]
      /\ In (Vary "Access-Control-Request-Headers") calls
  | None =>
      header_calls "Access-Control-Allow-Headers" calls = []
  end.

(** The allowed-headers rule as the specification words it, read on the
    calls of the allowed-headers part of the handler. *)
Definition allowed_headers_rule (options : ResolvedOptions) (req : IncomingMessage) : Prop :=
  if configured_nonempty (get (allowedHeaders options)) then
    match get (allowedHeaders options) with
    | Some h =>
        header_calls "Access-Control-Allow-Headers" (trace (allowedHeaders_ options req))
          = [SetHeader "Access-Control-Allow-Headers" (stringify h)]
    | None => True
    end
  else reflects_request req (trace (allowedHeaders_ options req)).

(** A header list that was not configured: left out, [undefined], or the
    empty string. *)
Definition unset (h : option StringOrArray) : Prop :=
  h = None \/ h = Some (Str "").

(** The object [m] has, field by field, the property of [s] when [s] owns
    one and the property of [d] otherwise. *)
Definition layered (d s m : Options) : Prop :=
  origin m = (if own (origin s) then origin s else origin d)
  /\ methods m = (if own (methods s) then methods s else methods d)
  /\ allowedHeaders m = (if own (allowedHeaders s) then allowedHeaders s else allowedHeaders d)
  /\ headers m = (if own (headers s) then headers s else headers d)
  /\ exposedHeaders m = (if own (exposedHeaders s) then exposedHeaders s else exposedHeaders d)
  /\ credentials m = (if own (credentials s) then credentials s else credentials d)
  /\ maxAge m = (if own (maxAge s) then maxAge s else maxAge d)
  /\ preflightContinue m = (if own (preflightContinue s) then preflightContinue s else preflightContinue d)
  /\ optionsSuccessStatus m
     = (if own (optionsSuccessStatus s) then optionsSuccessStatus s else optionsSuccessStatus d).

(** How the handler finishes a preflight request. *)
Definition terminal (options : ResolvedOptions) : list Event :=
  if match get (preflightContinue options) with Some b => b | None => false end
  then [Next VUndefined]
  else [StatusCode (get (optionsSuccessStatus options));
        SetHeader "Content-Length" "0"; End].

(** Calls that set no header but [name] and add no field but [field] to
    Vary. *)
Definition only_touches (name field : string) (calls : list Event) : Prop :=
  Forall (fun e => match e with
                   | SetHeader n _ => n = name
                   | Vary f => f = field
                   | _ => False
                   end) calls.

(** The heap of [w'] holds every object of [w], at the same address. *)
Definition extends (w w' : World) : Prop :=
  exists more, heap w' = heap w ++ more.

(** A computation under which the heap only grows, now and in what it
    postpones. *)
Definition grows {A} (m : M A) : Prop :=
  forall w, extends w (snd (fst (m w))) /\ forall w', extends w' (snd (m w) w').

(** What the factory argument hands to [corsMdlwrOptions]. *)
Definition resolved (corsOpts : CorsOpts) (req : IncomingMessage) : Completion loc :=
  match corsOpts with
  | Object options => mkCompletion Sync VNull options
  | Function f => f req
  end.

(** A result of the origin callback that denies the request: [!origin]. *)
Definition denies (origin : option Origin) : bool :=
  match origin with
  | Some o => negb (truthy_origin o)
  | None => true
  end.

(** ** Vocabulary of the further properties *)

(** The policies for which the handler answers [*]: no origin, [false], the
    empty string and the string [*]. *)
Definition wildcard (policy : option Origin) : bool :=
  match policy with
  | None => true
  | Some (Single (OBool b)) => negb b
  | Some (Single (OStr s)) => negb (nonempty s) || String.eqb s "*"
  | Some (Single (ORegExp _)) | Some (Array _) => false
  end.

(** The request is a preflight that the handler answers itself. *)
Definition short_circuits (options : ResolvedOptions) (req : IncomingMessage) : bool :=
  isPreflight req
  && negb (match get (preflightContinue options) with Some b => b | None => false end).

(** The header calls an actual request can get. *)
Definition actual_call (e : Event) : bool :=
  match e with
  | SetHeader n _ =>
      String.eqb n "Access-Control-Allow-Origin"
      || String.eqb n "Access-Control-Allow-Credentials"
      || String.eqb n "Access-Control-Expose-Headers"
  | Vary f => String.eqb f "Origin"
  | _ => false
  end.

(** The same request with another method. *)
Definition with_method (req : IncomingMessage) (method : option string) : IncomingMessage :=
  Req.mk method (Req.headers req).

(** The calls of a run in which the continuation is [next] instead of the
    callback-style one: each [next(err)] of the log is replaced by what
    [next err] does. *)
Definition through (next : Value -> M unit) (calls : list Event) : list Event :=
  flat_map (fun e => match e with
                     | Next err => trace (next err)
                     | _ => [e]
                     end) calls.

(** The calls of [corsMdlwrOrigin] when [options] refers to [merged]. *)
Definition origin_calls (merged : Options) (req : IncomingMessage)
    (err : Value) (origin : option Origin) : list Event :=
  match origin with
  | Some og =>
      if truthy err || negb (truthy_origin og) then [Next err]
      else actions (with_origin merged og) req
  | None => [Next err]
  end.

(** The calls of [corsMdlwrOptions] when [options] refers to [supplied]. *)
Definition options_calls (req : IncomingMessage) (err : Value) (supplied : Options)
  : list Event :=
  if truthy err then [Next err]
  else
    let merged := spread defaults supplied in
    match get (origin merged) with
    | Some (Fixed og) =>
        if truthy_origin og
        then origin_calls merged req VNull (Some og) ++ [Next VUndefined]
        else [Next VUndefined]
    | Some (Callback f) =>
        let c := f (Req.headers req !! "origin") in
        match timing c with
        | Sync => origin_calls merged req (error c) (result c) ++ [Next VUndefined]
        | Async => Next VUndefined :: origin_calls merged req (error c) (result c)
        end
    | None => [Next VUndefined]
    end.

(** The origin the handler is run with, when it is run: a fixed truthy
    origin, or the truthy origin a callback yields without an error. *)
Definition accepted (merged : Options) (req : IncomingMessage) : option Origin :=
  match get (origin merged) with
  | Some (Fixed og) => if truthy_origin og then Some og else None
  | Some (Callback f) =>
      let c := f (Req.headers req !! "origin") in
      if truthy (error c) || denies (result c) then None else result c
  | None => None
  end.

(** The origin option is switched on: neither missing nor falsy. *)
Definition origin_on (merged : Options) : bool :=
  match get (origin merged) with
  | Some setting => truthy_setting setting
  | None => false
  end.

(** The first settlement a promise gets from the calls of a run with the
    callback-style continuation. *)
Fixpoint first_next (calls : list Event) : option Value :=
  match calls with
  | [] => None
  | Next err :: _ => Some err
  | _ :: rest => first_next rest
  end.

(** The calls made on the response and on the callback-style continuation,
    as opposed to those that settle a promise. *)
Definition host_call (e : Event) : bool :=
  match e with
  | Resolve | Reject _ => false
  | _ => true
  end.

(** [{ ...options, preflightContinue }] *)
Definition with_preflightContinue (options : ResolvedOptions) (continue : bool)
  : ResolvedOptions :=
  mkOptions (origin options) (methods options) (allowedHeaders options)
            (headers options) (exposedHeaders options) (credentials options)
            (maxAge options) (Present continue) (optionsSuccessStatus options).

(** ** Sample requests, options and callbacks *)

(** Requests with the given headers. *)
Definition GET (hs : gmap string string) : IncomingMessage := Req.mk (Some "GET") hs.
Definition OPTIONS (hs : gmap string string) : IncomingMessage := Req.mk (Some "OPTIONS") hs.

(** The pattern [new RegExp("")], which every string matches. *)
Definition any_pattern : RegExp := mkRegExp "(?:)" (fun _ => true).

(** The pattern [/\.b\.com$/]: the subject ends with [.b.com]. *)
Fixpoint ends_with (suffix s : string) : bool :=
  String.eqb s suffix
  || match s with
     | EmptyString => false
     | String _ s' => ends_with suffix s'
     end.

Definition b_com : RegExp := mkRegExp "\.b\.com$" (ends_with ".b.com").

(** Options with nothing but the given origin policy. *)
Definition origin_only (policy : Origin) : ResolvedOptions := with_origin (@empty Origin) policy.

Definition max_age_only (m : NumberOrString) : ResolvedOptions :=
  mkOptions Absent Absent Absent Absent Absent Absent (Present m) Absent Absent.

Definition allowed_headers_only (h : StringOrArray) : ResolvedOptions :=
  mkOptions Absent Absent (Present h) Absent Absent Absent Absent Absent Absent.

(** The options the middleware hands to the handler when the caller
    supplied [{}]. *)
Definition default_options : ResolvedOptions :=
  with_origin (spread defaults empty) (Single (OStr "*")).

(** Caller objects: [{}], [{ origin: f }] and [{ origin: o }]. *)
Definition no_options : Options := empty.

Definition callback_options (f : OriginCallback) : Options :=
  with_origin no_options (Callback f).

Definition fixed_options (o : Origin) : Options :=
  with_origin no_options (Fixed o).

(** Options in which every field is set. *)
Definition everything_configured : ResolvedOptions :=
  mkOptions (Present (Single (OStr "http://a.com")))
            (Present (Arr ["GET"; "POST"]))
            (Present (Arr ["X-Custom"]))
            Absent
            (Present (Str "X-Total"))
            (Present (VBool true))
            (Present (Num 600))
            (Present false)
            (Present 204).

(** An origin callback that allows every origin, from a later turn. *)
Definition slow_callback : OriginCallback :=
  fun _ => mkCompletion Async VNull (Some (Single (OBool true))).

(** An origin callback that allows one origin, at once. *)
Definition quick_callback : OriginCallback :=
  fun _ => mkCompletion Sync VNull (Some (Single (OStr "http://a.com"))).

(** An origin callback that fails at once. *)
Definition quick_failure : OriginCallback :=
  fun _ => mkCompletion Sync (VError "origin lookup failed") None.

(** A heap with two caller objects, at addresses 1 and 2. *)
Definition world_with_two (a b : Options) : World := mkWorld [defaults; a; b] [].

(** An origin callback that fails, from a later turn, with an error. *)
Definition failing_callback : OriginCallback :=
  fun _ => mkCompletion Async (VError "origin lookup failed") None.

(** An origin callback that answers [callback(null, false)] at once. *)
Definition denying_callback : OriginCallback :=
  fun _ => mkCompletion Sync VNull (Some (Single (OBool false))).

(** The heap after the module is loaded and a caller has built one options
    object, which is then at address 1. *)
Definition world_with (options : Options) : World := mkWorld [defaults; options] [].

Definition caller_options : loc := 1%nat.

(** ** Origin patterns that keep a position: the g and y flags *)

(** The handler once more, for origin policies whose RegExp objects may
    carry the [g] or the [y] flag.  [RegExp.prototype.test] on such an object
    starts at its [lastIndex] and moves it, and the object outlives the
    invocation, so the origin check reads and writes a store of positions.
    The other parts of the handler are those defined above. *)
Module Flagged.

(** A RegExp object.  Its pattern and flags never change: [exec from s] is
    the index just after the match that a search of [s] starting at index
    [from] finds, if it finds one.  Its [lastIndex] does change; it is kept
    in the store under the address of the object, which every options object
    holding the RegExp shares. *)
Record RegExpObject : Type := mkRegExpObject {
  source : string;
  global_or_sticky : bool;
  exec : nat -> string -> option nat;
  address : nat
}.

(** [lastIndex] of the RegExp object at each address; [0] for a new one. *)
Definition Store : Type := nat -> nat.

Definition fresh : Store := fun _ => 0%nat.

Definition set_lastIndex (a i : nat) (st : Store) : Store :=
  fun x => if Nat.eqb x a then i else st x.

(** [r.test(s)]: with the [g] or [y] flag the search starts at [lastIndex],
    fails at once when that lies beyond the subject, and leaves [lastIndex]
    just after the match, or at [0] when there is none; without these flags
    it starts at [0] and [lastIndex] is left alone. *)
Definition test (r : RegExpObject) (s : option string) (st : Store) : bool * Store :=
  let subject := match s with Some x => x | None => "undefined" end in
  if global_or_sticky r then
    let lastIndex := st (address r) in
    match (if Nat.ltb (String.length subject) lastIndex then None
           else exec r lastIndex subject) with
    | Some e => (true, set_lastIndex (address r) e st)
    | None => (false, set_lastIndex (address r) 0%nat st)
    end
  else
    (match exec r 0%nat subject with Some _ => true | None => false end, st).

(** [boolean | string | RegExp] *)
Inductive Item : Type :=
| IBool (b : bool)
| IStr (s : string)
| IRegExp (r : RegExpObject).

(** [type Origin = boolean | string | RegExp | (string | RegExp)[]] *)
Inductive Policy : Type :=
| One (i : Item)
| Many (l : list Item).

Definition truthy_item (i : Item) : bool :=
  match i with
  | IBool b => b
  | IStr s => nonempty s
  | IRegExp _ => true
  end.

Definition truthy_policy (p : Policy) : bool :=
  match p with
  | One i => truthy_item i
  | Many _ => true
  end.

Definition isString (s : Policy) : option string :=
  match s with
  | One (IStr text) => Some text
  | _ => None
  end.

Definition allowed (origin : option string) (originAllowed : Item) (st : Store)
  : bool * Store :=
  match originAllowed with
  | IRegExp r => test r origin st
  | IStr s =>
      (match origin with
       | Some o => String.eqb o s
       | None => false
       end, st)
  | IBool b => (b, st)
  end.

(** [Array.prototype.find]: the members are tried in order, each trial may
    move a position, and the search stops at the first member accepted. *)
Fixpoint find (origin : option string) (l : list Item) (st : Store)
  : option Item * Store :=
  match l with
  | [] => (None, st)
  | x :: rest =>
      let '(accepted, st') := allowed origin x st in
      if accepted then (Some x, st') else find origin rest st'
  end.

Definition isOriginAllowed (origin : option string) (originAllowed : Policy) (st : Store)
  : bool * Store :=
  match originAllowed with
  | Many l =>
      let '(found, st') := find origin l st in
      (match found with
       | Some found => truthy_item found
       | None => false
       end, st')
  | One o => allowed origin o st
  end.

(** The headers to send, and the positions the origin check leaves. *)
Definition originHeaders (options : OptionsOf Policy) (req : IncomingMessage) (st : Store)
  : M unit * Store :=
  let requestOrigin := Req.headers req !! "origin" in
  match get (origin options) with
  | None =>
      (* !origin *)
      (setHeader "Access-Control-Allow-Origin" "*", st)
  | Some origin =>
      if negb (truthy_policy origin)
         || match isString origin with Some s => String.eqb s "*" | None => false end
      then
        (* allow any origin *)
        (setHeader "Access-Control-Allow-Origin" "*", st)
      else
        match isString origin with
        | Some fixed =>
            (* fixed origin *)
            (vary "Origin" ;;
             setHeader "Access-Control-Allow-Origin" fixed, st)
        | None =>
            (* reflect origin, or deny *)
            let '(isAllowed, st') := isOriginAllowed requestOrigin origin st in
            let allowedOrigin := if isAllowed then requestOrigin else None in
            (match truthy_string allowedOrigin with
             | Some allowedOrigin =>
                 vary "Origin" ;;
                 setHeader "Access-Control-Allow-Origin" allowedOrigin
             | None => ret tt
             end, st')
        end
  end.

(** The policy read without positions: every pattern as the predicate its
    search from index [0] gives. *)
Definition plain_item (i : Item) : OriginItem :=
  match i with
  | IBool b => OBool b
  | IStr s => OStr s
  | IRegExp r =>
      ORegExp (JS.mkRegExp (source r)
                 (fun s => match exec r 0%nat s with Some _ => true | None => false end))
  end.

Definition plain (p : Policy) : Origin :=
  match p with
  | One i => Single (plain_item i)
  | Many l => Array (List.map plain_item l)
  end.

Definition plain_options (options : OptionsOf Policy) : ResolvedOptions :=
  mkOptions (match origin options with
             | Present p => Present (plain p)
             | Undefined => Undefined
             | Absent => Absent
             end)
            (methods options) (allowedHeaders options) (headers options)
            (exposedHeaders options) (credentials options) (maxAge options)
            (preflightContinue options) (optionsSuccessStatus options).

(** [corsHandler]; only [originHeaders] reads [options.origin], the other
    parts are given the remaining fields. *)
Definition corsHandler (options : OptionsOf Policy) (req : IncomingMessage)
    (next : Value -> M unit) (st : Store) : M unit * Store :=
  let others := plain_options options in
  let '(originHeaders, st') := originHeaders options req st in
  if isPreflight req then
    (* preflight request *)
    (originHeaders ;;
     credentialsHeaders others ;;
     methodsHeaders others ;;
     allowedHeaders_ others req ;;
     cacheHeaders others ;;
     exposedHeaders_ others ;;
     if match get (preflightContinue options) with Some b => b | None => false end
     then next VUndefined
     else
       set_statusCode (get (optionsSuccessStatus options)) ;;
       setHeader "Content-Length" "0" ;;
       end_, st')
  else
    (* actual request *)
    (originHeaders ;;
     credentialsHeaders others ;;
     exposedHeaders_ others ;;
     next VUndefined, st').

(** The calls of one invocation that finds the positions [st]. *)
Definition calls (options : OptionsOf Policy) (req : IncomingMessage) (st : Store)
  : list Event :=
  trace (fst (corsHandler options req host_next st)).

(** The positions one invocation leaves behind. *)
Definition leaves (options : OptionsOf Policy) (req : IncomingMessage) (st : Store)
  : Store :=
  snd (corsHandler options req host_next st).

(** Determinism of the handler: the calls of an invocation are the same
    whatever positions earlier invocations have left. *)
Definition deterministic (options : OptionsOf Policy) (req : IncomingMessage) : Prop :=
  forall st st', calls options req st = calls options req st'.

(** No RegExp of the policy carries the [g] or the [y] flag. *)
Definition unflagged_item (i : Item) : bool :=
  match i with
  | IRegExp r => negb (global_or_sticky r)
  | _ => true
  end.

Definition unflagged (policy : option Policy) : bool :=
  match policy with
  | Some (One i) => unflagged_item i
  | Some (Many l) => forallb unflagged_item l
  | None => true
  end.

(** The search of a pattern [/suffix$/]: a match lies at the end of the
    subject and must begin at or after the index the search starts from. *)
Definition exec_suffix (suffix : string) (from : nat) (s : string) : option nat :=
  if ends_with suffix (String.substring from (String.length s - from) s)
  then Some (String.length s)
  else None.

(** [/\.b\.com$/g] and [/\.b\.com$/], each a RegExp object of its own. *)
Definition b_com_g : RegExpObject :=
  mkRegExpObject "\.b\.com$" true (exec_suffix ".b.com") 0.

Definition b_com : RegExpObject :=
  mkRegExpObject "\.b\.com$" false (exec_suffix ".b.com") 1.

(** Options with nothing but the given origin policy. *)
Definition origin_only (policy : Policy) : OptionsOf Policy :=
  with_origin (@empty Policy) policy.

End Flagged.

(** ** Basic facts about computations *)

Lemma logs_only_ret : logs_only (ret tt).
Proof.
  intros [h l]. unfold ret, trace, run. simpl. now rewrite app_nil_r.
Qed.

Lemma logs_only_emit e : logs_only (emit e).
Proof. intros w. reflexivity. Qed.

Lemma trace_seq (m k : M unit) :
  logs_only m -> logs_only k -> trace (m ;; k) = trace m ++ trace k.
Proof.
  intros Hm Hk. unfold trace at 1, run, bind.
  rewrite Hm. simpl. rewrite Hk. reflexivity.
Qed.

Lemma logs_only_seq (m k : M unit) :
  logs_only m -> logs_only k -> logs_only (m ;; k).
Proof.
  intros Hm Hk w. rewrite (trace_seq m k Hm Hk).
  unfold bind. rewrite Hm. simpl. rewrite Hk. simpl.
  now rewrite app_assoc.
Qed.

Lemma run_logs_only (m : M unit) w :
  logs_only m -> run m w = mkWorld (heap w) (log w ++ trace m).
Proof. intros Hm. unfold run. now rewrite Hm. Qed.

Create HintDb cors.
#[local] Hint Resolve logs_only_ret logs_only_emit logs_only_seq : cors.
#[local] Hint Unfold setHeader vary set_statusCode end_ host_next : cors.

Ltac logs := repeat first
  [ apply logs_only_seq | apply logs_only_emit | apply logs_only_ret ].

(** ** The parts of the handler only append to the log *)

Lemma originHeaders_logs options req : logs_only (originHeaders options req).
Proof.
  unfold originHeaders, setHeader, vary.
  destruct (get (origin options)) as [o|]; [|logs].
  destruct (_ || _); [logs|].
  destruct (isString o); [logs|].
  destruct (truthy_string _); logs.
Qed.

Lemma credentialsHeaders_logs options : logs_only (credentialsHeaders options).
Proof.
  unfold credentialsHeaders, setHeader.
  destruct (get (credentials options)) as [v|]; [|logs].
  destruct (is_true v); logs.
Qed.

Lemma methodsHeaders_logs options : logs_only (methodsHeaders options).
Proof.
  unfold methodsHeaders, setHeader. destruct (truthy_string _); logs.
Qed.

Lemma allowedHeaders_logs options req : logs_only (allowedHeaders_ options req).
Proof.
  unfold allowedHeaders_, setHeader, vary.
  destruct (truthy_headers _).
  - destruct (nonempty _); logs.
  - destruct (truthy_string _); logs.
Qed.

Lemma cacheHeaders_logs options : logs_only (cacheHeaders options).
Proof.
  unfold cacheHeaders, setHeader. destruct (truthy_string _); logs.
Qed.

Lemma exposedHeaders_logs options : logs_only (exposedHeaders_ options).
Proof.
  unfold exposedHeaders_, setHeader.
  destruct (truthy_headers _); [|logs].
  destruct (nonempty _); logs.
Qed.

#[local] Hint Resolve originHeaders_logs credentialsHeaders_logs methodsHeaders_logs
  allowedHeaders_logs cacheHeaders_logs exposedHeaders_logs : cors.

Lemma corsHandler_logs options req : logs_only (corsHandler options req host_next).
Proof.
  unfold corsHandler, host_next, set_statusCode, setHeader, end_.
  destruct (isPreflight req).
  - destruct (match get (preflightContinue options) with Some b => b | None => false end);
      repeat (apply logs_only_seq; auto with cors); logs.
  - repeat (apply logs_only_seq; auto with cors); logs.
Qed.

(** ** The calls of the handler, part by part *)

Lemma terminal_logs (options : ResolvedOptions) :
  logs_only
    (if match get (preflightContinue options) with Some b => b | None => false end
     then host_next VUndefined
     else set_statusCode (get (optionsSuccessStatus options)) ;;
          setHeader "Content-Length" "0" ;; end_).
Proof.
  destruct (match get (preflightContinue options) with Some b => b | None => false end);
    unfold host_next, set_statusCode, setHeader, end_; logs.
Qed.

Lemma actions_preflight options req :
  isPreflight req = true ->
  actions options req
  = trace (originHeaders options req) ++ trace (credentialsHeaders options)
    ++ trace (methodsHeaders options) ++ trace (allowedHeaders_ options req)
    ++ trace (cacheHeaders options) ++ trace (exposedHeaders_ options)
    ++ terminal options.
Proof.
  intros Hp. unfold actions. fold (trace (corsHandler options req host_next)).
  unfold corsHandler, terminal. rewrite Hp.
  pose proof (terminal_logs options) as Ht.
  rewrite !trace_seq; auto 10 with cors.
  repeat f_equal.
  destruct (match get (preflightContinue options) with Some b => b | None => false end);
    reflexivity.
Qed.

Lemma actions_actual options req :
  isPreflight req = false ->
  actions options req
  = trace (originHeaders options req) ++ trace (credentialsHeaders options)
    ++ trace (exposedHeaders_ options) ++ [Next VUndefined].
Proof.
  intros Hp. unfold actions. fold (trace (corsHandler options req host_next)).
  unfold corsHandler. rewrite Hp.
  assert (logs_only (host_next VUndefined)) by (unfold host_next; logs).
  rewrite !trace_seq; auto 10 with cors.
Qed.

Lemma header_calls_app name a b :
  header_calls name (a ++ b) = header_calls name a ++ header_calls name b.
Proof. apply List.filter_app. Qed.

Lemma header_calls_other name field n calls :
  only_touches name field calls -> n <> name -> header_calls n calls = [].
Proof.
  induction 1 as [|e calls He _ IH]; intros Hn; [reflexivity|].
  simpl. destruct e; simpl; auto.
  subst. destruct (String.eqb_spec name n); [congruence | auto].
Qed.

Lemma no_vary_other name field f calls :
  only_touches name field calls -> f <> field -> ~ In (Vary f) calls.
Proof.
  induction 1 as [|e calls He _ IH]; intros Hf; [auto|].
  intros [Heq|Hin]; [|now apply IH].
  subst e. congruence.
Qed.

Ltac touches :=
  repeat match goal with
         | |- only_touches _ _ (trace (match ?x with _ => _ end)) => destruct x
         | |- only_touches _ _ (trace (if ?x then _ else _)) => destruct x
         end;
  repeat constructor.

Lemma originHeaders_touches options req :
  only_touches "Access-Control-Allow-Origin" "Origin" (trace (originHeaders options req)).
Proof. unfold originHeaders. touches. Qed.

Lemma credentialsHeaders_touches options :
  only_touches "Access-Control-Allow-Credentials" "" (trace (credentialsHeaders options)).
Proof. unfold credentialsHeaders. touches. Qed.

Lemma methodsHeaders_touches options :
  only_touches "Access-Control-Allow-Methods" "" (trace (methodsHeaders options)).
Proof. unfold methodsHeaders. touches. Qed.

Lemma allowedHeaders_touches options req :
  only_touches "Access-Control-Allow-Headers" "Access-Control-Request-Headers"
    (trace (allowedHeaders_ options req)).
Proof. unfold allowedHeaders_. touches. Qed.

Lemma cacheHeaders_touches options :
  only_touches "Access-Control-Max-Age" "" (trace (cacheHeaders options)).
Proof. unfold cacheHeaders. touches. Qed.

Lemma exposedHeaders_touches options :
  only_touches "Access-Control-Expose-Headers" "" (trace (exposedHeaders_ options)).
Proof. unfold exposedHeaders_. touches. Qed.

Ltac differ := apply String.eqb_neq; reflexivity.

Lemma terminal_sets name options :
  name <> "Content-Length" -> header_calls name (terminal options) = [].
Proof.
  intros Hn. unfold terminal.
  destruct (match get (preflightContinue options) with Some b => b | None => false end);
    [reflexivity|].
  unfold header_calls. cbn [List.filter sets].
  destruct (String.eqb_spec "Content-Length" name); [congruence | reflexivity].
Qed.

Lemma terminal_no_vary f options : ~ In (Vary f) (terminal options).
Proof.
  unfold terminal.
  destruct (match get (preflightContinue options) with Some b => b | None => false end);
    simpl; intuition discriminate.
Qed.

(** Each header is set by one part of the handler only. *)
Lemma allow_origin_calls options req :
  header_calls "Access-Control-Allow-Origin" (actions options req)
  = header_calls "Access-Control-Allow-Origin" (trace (originHeaders options req)).
Proof.
  destruct (isPreflight req) eqn:Hp.
  - rewrite (actions_preflight _ _ Hp), !header_calls_app.
    rewrite (header_calls_other _ _ _ _ (credentialsHeaders_touches options)) by differ.
    rewrite (header_calls_other _ _ _ _ (methodsHeaders_touches options)) by differ.
    rewrite (header_calls_other _ _ _ _ (allowedHeaders_touches options req)) by differ.
    rewrite (header_calls_other _ _ _ _ (cacheHeaders_touches options)) by differ.
    rewrite (header_calls_other _ _ _ _ (exposedHeaders_touches options)) by differ.
    rewrite terminal_sets by differ. now rewrite app_nil_r.
  - rewrite (actions_actual _ _ Hp), !header_calls_app.
    rewrite (header_calls_other _ _ _ _ (credentialsHeaders_touches options)) by differ.
    rewrite (header_calls_other _ _ _ _ (exposedHeaders_touches options)) by differ.
    simpl. now rewrite app_nil_r.
Qed.

Lemma allow_credentials_calls options req :
  header_calls "Access-Control-Allow-Credentials" (actions options req)
  = header_calls "Access-Control-Allow-Credentials" (trace (credentialsHeaders options)).
Proof.
  destruct (isPreflight req) eqn:Hp.
  - rewrite (actions_preflight _ _ Hp), !header_calls_app.
    rewrite (header_calls_other _ _ _ _ (originHeaders_touches options req)) by differ.
    rewrite (header_calls_other _ _ _ _ (methodsHeaders_touches options)) by differ.
    rewrite (header_calls_other _ _ _ _ (allowedHeaders_touches options req)) by differ.
    rewrite (header_calls_other _ _ _ _ (cacheHeaders_touches options)) by differ.
    rewrite (header_calls_other _ _ _ _ (exposedHeaders_touches options)) by differ.
    rewrite terminal_sets by differ. simpl. now rewrite app_nil_r.
  - rewrite (actions_actual _ _ Hp), !header_calls_app.
    rewrite (header_calls_other _ _ _ _ (originHeaders_touches options req)) by differ.
    rewrite (header_calls_other _ _ _ _ (exposedHeaders_touches options)) by differ.
    simpl. now rewrite app_nil_r.
Qed.

Lemma allow_headers_calls options req :
  isPreflight req = true ->
  header_calls "Access-Control-Allow-Headers" (actions options req)
  = header_calls "Access-Control-Allow-Headers" (trace (allowedHeaders_ options req)).
Proof.
  intros Hp. rewrite (actions_preflight _ _ Hp), !header_calls_app.
  rewrite (header_calls_other _ _ _ _ (originHeaders_touches options req)) by differ.
  rewrite (header_calls_other _ _ _ _ (credentialsHeaders_touches options)) by differ.
  rewrite (header_calls_other _ _ _ _ (methodsHeaders_touches options)) by differ.
  rewrite (header_calls_other _ _ _ _ (cacheHeaders_touches options)) by differ.
  rewrite (header_calls_other _ _ _ _ (exposedHeaders_touches options)) by differ.
  rewrite terminal_sets by differ. simpl. now rewrite app_nil_r.
Qed.

Lemma max_age_calls options req :
  isPreflight req = true ->
  header_calls "Access-Control-Max-Age" (actions options req)
  = header_calls "Access-Control-Max-Age" (trace (cacheHeaders options)).
Proof.
  intros Hp. rewrite (actions_preflight _ _ Hp), !header_calls_app.
  rewrite (header_calls_other _ _ _ _ (originHeaders_touches options req)) by differ.
  rewrite (header_calls_other _ _ _ _ (credentialsHeaders_touches options)) by differ.
  rewrite (header_calls_other _ _ _ _ (methodsHeaders_touches options)) by differ.
  rewrite (header_calls_other _ _ _ _ (allowedHeaders_touches options req)) by differ.
  rewrite (header_calls_other _ _ _ _ (exposedHeaders_touches options)) by differ.
  rewrite terminal_sets by differ. simpl. now rewrite app_nil_r.
Qed.

(** Where Vary is extended. *)
Lemma vary_origin_in options req :
  In (Vary "Origin") (trace (originHeaders options req)) ->
  In (Vary "Origin") (actions options req).
Proof.
  intros Hin. destruct (isPreflight req) eqn:Hp.
  - rewrite (actions_preflight _ _ Hp). apply in_or_app. now left.
  - rewrite (actions_actual _ _ Hp). apply in_or_app. now left.
Qed.

Lemma vary_request_headers_iff options req :
  isPreflight req = true ->
  In (Vary "Access-Control-Request-Headers") (actions options req)
  <-> In (Vary "Access-Control-Request-Headers") (trace (allowedHeaders_ options req)).
Proof.
  intros Hp. rewrite (actions_preflight _ _ Hp). rewrite !in_app_iff.
  pose proof (no_vary_other _ _ "Access-Control-Request-Headers" _
                (originHeaders_touches options req)) as H1.
  pose proof (no_vary_other _ _ "Access-Control-Request-Headers" _
                (credentialsHeaders_touches options)) as H2.
  pose proof (no_vary_other _ _ "Access-Control-Request-Headers" _
                (methodsHeaders_touches options)) as H3.
  pose proof (no_vary_other _ _ "Access-Control-Request-Headers" _
                (cacheHeaders_touches options)) as H4.
  pose proof (no_vary_other _ _ "Access-Control-Request-Headers" _
                (exposedHeaders_touches options)) as H5.
  pose proof (terminal_no_vary "Access-Control-Request-Headers" options) as H6.
  assert ("Access-Control-Request-Headers" <> "Origin") as N1 by differ.
  assert ("Access-Control-Request-Headers" <> "") as N2 by differ.
  tauto.
Qed.

(** ** The origin rule *)

Lemma trace_originHeaders_reflect options req policy :
  get (origin options) = Some policy ->
  pattern_or_list policy = true ->
  trace (originHeaders options req)
  = match truthy_string (if isOriginAllowed (Req.headers req !! "origin") policy
                         then Req.headers req !! "origin" else None) with
    | Some allowedOrigin =>
        [Vary "Origin"; SetHeader "Access-Control-Allow-Origin" allowedOrigin]
    | None => []
    end.
Proof.
  intros Ho Hp. unfold originHeaders. rewrite Ho.
  destruct policy as [[b|s|r]|l]; try discriminate Hp; cbn [truthy_origin truthy_item isString negb orb];
    destruct (truthy_string _); reflexivity.
Qed.

Lemma allowed_item_matches o i : allowed (Some o) i = item_matches o i.
Proof. destruct i; reflexivity. Qed.

Lemma matched_item_truthy o i :
  nonempty o = true -> item_matches o i = true -> truthy_item i = true.
Proof.
  destruct i as [b|s|r]; simpl; auto.
  intros Hne Heq. apply String.eqb_eq in Heq. now subst.
Qed.

Lemma isOriginAllowed_any_match o policy :
  nonempty o = true ->
  isOriginAllowed (Some o) policy = any_match o policy.
Proof.
  intros Hne. destruct policy as [i|l]; simpl.
  - apply allowed_item_matches.
  - induction l as [|i l IH]; simpl; [reflexivity|].
    rewrite allowed_item_matches.
    destruct (item_matches o i) eqn:Hi; simpl; [|exact IH].
    now apply (matched_item_truthy o).
Qed.

(** C3, as amended: for a request whose Origin header is present and not
    empty, and an origin policy that is a pattern or a list, the handler sets
    Access-Control-Allow-Origin to the request origin and adds Origin to Vary
    when an entry matches (a string by equality, a pattern by its test, a bare
    [true] always), and does not set the header when none matches. *)
Theorem origin_reflected_when_matched options req o :
  Req.headers req !! "origin" = Some o ->
  o <> "" ->
  origin_rule options req o.
Proof.
  intros Hreq Hne policy Hpol Hkind.
  assert (nonempty o = true) as Hne' by (destruct o; [congruence | reflexivity]).
  pose proof (trace_originHeaders_reflect options req policy Hpol Hkind) as Ht.
  rewrite Hreq, (isOriginAllowed_any_match o policy Hne') in Ht.
  split; intros Hm; rewrite Hm in Ht; simpl in Ht.
  - rewrite Hne' in Ht. split.
    + rewrite allow_origin_calls, Ht. unfold header_calls. simpl. reflexivity.
    + apply vary_origin_in. rewrite Ht. now left.
  - rewrite allow_origin_calls, Ht. reflexivity.
Qed.

Lemma origin_reflected_witness :
  header_calls "Access-Control-Allow-Origin"
    (actions (origin_only (Array [OStr "http://a.com"; ORegExp b_com]))
             (GET {["origin" := "http://x.b.com"]}))
  = [SetHeader "Access-Control-Allow-Origin" "http://x.b.com"]
  /\ In (Vary "Origin")
        (actions (origin_only (Array [OStr "http://a.com"; ORegExp b_com]))
                 (GET {["origin" := "http://x.b.com"]})).
Proof.
  refine (proj1 (origin_reflected_when_matched
                   (origin_only (Array [OStr "http://a.com"; ORegExp b_com]))
                   (GET {["origin" := "http://x.b.com"]}) "http://x.b.com" _ _
                   (Array [OStr "http://a.com"; ORegExp b_com]) _ _) _);
    [reflexivity | discriminate | reflexivity | reflexivity | reflexivity].
Defined.

(** C3, as stated, fails for an Origin header that is present but empty:
    the pattern matches the empty origin, yet no header is set. *)
Lemma empty_origin_not_reflected :
  Req.headers (GET {["origin" := ""]}) !! "origin" = Some ""
  /\ ~ origin_rule (origin_only (Single (ORegExp any_pattern))) (GET {["origin" := ""]}) "".
Proof.
  split; [reflexivity|].
  intros H.
  destruct (H (Single (ORegExp any_pattern)) eq_refl eq_refl) as [Hyes _].
  destruct (Hyes eq_refl) as [Hset _].
  vm_compute in Hset. discriminate Hset.
Qed.

(** C10: when the Origin header is absent or empty and the origin policy is
    a pattern or a list, Access-Control-Allow-Origin is never set, whatever
    the entries would match. *)
Theorem absent_origin_never_reflected options req policy :
  Req.headers req !! "origin" = None \/ Req.headers req !! "origin" = Some "" ->
  get (origin options) = Some policy ->
  pattern_or_list policy = true ->
  header_calls "Access-Control-Allow-Origin" (actions options req) = [].
Proof.
  intros Hreq Hpol Hkind.
  rewrite allow_origin_calls, (trace_originHeaders_reflect options req policy Hpol Hkind).
  destruct Hreq as [-> | ->]; destruct (isOriginAllowed _ policy); reflexivity.
Qed.

Lemma absent_origin_witness :
  test any_pattern None = true
  /\ header_calls "Access-Control-Allow-Origin"
       (actions (origin_only (Single (ORegExp any_pattern))) (OPTIONS ∅)) = [].
Proof.
  split; [reflexivity|].
  apply (absent_origin_never_reflected
           (origin_only (Single (ORegExp any_pattern))) (OPTIONS ∅)
           (Single (ORegExp any_pattern)));
    [left; reflexivity | reflexivity | reflexivity].
Defined.

(** ** The credentials rule *)

(** C7: Access-Control-Allow-Credentials is set, to the string [true], if
    and only if the [credentials] field is the boolean [true]; for any other
    value, truthy ones included, the header is not set. *)
Theorem credentials_only_when_true options req :
  (get (credentials options) = Some (VBool true)
   /\ header_calls "Access-Control-Allow-Credentials" (actions options req)
      = [SetHeader "Access-Control-Allow-Credentials" "true"])
  \/ (get (credentials options) <> Some (VBool true)
      /\ header_calls "Access-Control-Allow-Credentials" (actions options req) = []).
Proof.
  rewrite allow_credentials_calls. unfold credentialsHeaders.
  destruct (get (credentials options)) as [[| |[]| | |]|];
    first [ left; split; reflexivity | right; split; [discriminate | reflexivity] ].
Qed.

(** ** The max-age rule *)

Lemma Number_toString_nonempty n : Number_toString n <> "".
Proof.
  unfold Number_toString.
  destruct (Z.to_int n) as [d|d]; simpl; [|discriminate].
  destruct d; simpl; discriminate.
Qed.

Lemma trace_cacheHeaders_number options n :
  get (maxAge options) = Some (Num n) ->
  trace (cacheHeaders options) = [SetHeader "Access-Control-Max-Age" (Number_toString n)].
Proof.
  intros H. unfold cacheHeaders. rewrite H. simpl.
  destruct (Number_toString n) eqn:Hs; [now apply Number_toString_nonempty in Hs|].
  reflexivity.
Qed.

(** C6: a numeric [maxAge] is written in decimal into Access-Control-Max-Age
    (that text is never empty), a string [maxAge] is written as it is when it
    is not empty, and [maxAge = 0] gives the header value [0]; these are the
    calls that set the header on a preflight request. *)
Theorem max_age_stringified options :
  (forall n, get (maxAge options) = Some (Num n) ->
     Number_toString n <> ""
     /\ trace (cacheHeaders options)
        = [SetHeader "Access-Control-Max-Age" (Number_toString n)])
  /\ (forall s, get (maxAge options) = Some (NStr s) -> s <> "" ->
     trace (cacheHeaders options) = [SetHeader "Access-Control-Max-Age" s])
  /\ (get (maxAge options) = Some (Num 0) ->
     trace (cacheHeaders options) = [SetHeader "Access-Control-Max-Age" "0"])
  /\ (forall req, isPreflight req = true ->
     header_calls "Access-Control-Max-Age" (actions options req)
     = trace (cacheHeaders options)).
Proof.
  repeat split.
  - apply Number_toString_nonempty.
  - now apply trace_cacheHeaders_number.
  - intros s H Hs. unfold cacheHeaders. rewrite H.
    destruct s; [congruence|]. reflexivity.
  - intros H0. now rewrite (trace_cacheHeaders_number options 0 H0).
  - intros req Hp. rewrite (max_age_calls options req Hp).
    unfold cacheHeaders. destruct (truthy_string _); reflexivity.
Qed.

Lemma max_age_zero_witness :
  trace (cacheHeaders (max_age_only (Num 0))) = [SetHeader "Access-Control-Max-Age" "0"]
  /\ header_calls "Access-Control-Max-Age" (actions (max_age_only (Num 0)) (OPTIONS ∅))
     = [SetHeader "Access-Control-Max-Age" "0"].
Proof.
  destruct (max_age_stringified (max_age_only (Num 0))) as (_ & _ & Hzero & Hpre).
  split.
  - apply Hzero. reflexivity.
  - rewrite (Hpre (OPTIONS ∅)) by reflexivity. apply Hzero. reflexivity.
Defined.

(** ** The allowed-headers rule *)

Lemma trace_allowedHeaders_configured options req h :
  get (allowedHeaders options) = Some h ->
  truthy_list h = true ->
  trace (allowedHeaders_ options req)
  = if nonempty (stringify h)
    then [SetHeader "Access-Control-Allow-Headers" (stringify h)] else [].
Proof.
  intros H Ht. unfold allowedHeaders_. rewrite H. simpl. rewrite Ht. simpl. rewrite Ht.
  destruct (nonempty (stringify h)); reflexivity.
Qed.

Lemma unset_falls_through (a b : option StringOrArray) :
  unset a -> unset b -> truthy_headers (or_else a b) = None.
Proof. intros [-> | ->] [-> | ->]; reflexivity. Qed.

(** C5, as amended: an [allowedHeaders] that is an array or a non-empty
    string is written (arrays joined with commas) into
    Access-Control-Allow-Headers when the text is not empty, and nothing is
    set or reflected when it is empty; when neither [allowedHeaders] nor its
    alias [headers] is configured, a non-empty Access-Control-Request-Headers
    of the request is reflected as it is and added to Vary, and nothing is
    set when the request has none; these are the calls that set the header on
    a preflight request. *)
Theorem allowed_headers_configured_or_reflected options req :
  (forall l, get (allowedHeaders options) = Some (Arr l) ->
     trace (allowedHeaders_ options req)
     = if nonempty (join "," l)
       then [SetHeader "Access-Control-Allow-Headers" (join "," l)] else [])
  /\ (forall s, get (allowedHeaders options) = Some (Str s) -> s <> "" ->
     trace (allowedHeaders_ options req) = [SetHeader "Access-Control-Allow-Headers" s])
  /\ (unset (get (allowedHeaders options)) -> unset (get (headers options)) ->
     (forall v, Req.headers req !! "access-control-request-headers" = Some v -> v <> "" ->
        trace (allowedHeaders_ options req)
        = [Vary "Access-Control-Request-Headers";
           SetHeader "Access-Control-Allow-Headers" v])
     /\ (Req.headers req !! "access-control-request-headers" = None
         \/ Req.headers req !! "access-control-request-headers" = Some "" ->
        trace (allowedHeaders_ options req) = []))
  /\ (isPreflight req = true ->
     header_calls "Access-Control-Allow-Headers" (actions options req)
     = header_calls "Access-Control-Allow-Headers" (trace (allowedHeaders_ options req))
     /\ (In (Vary "Access-Control-Request-Headers") (actions options req)
         <-> In (Vary "Access-Control-Request-Headers")
               (trace (allowedHeaders_ options req)))).
Proof.
  split; [|split; [|split]].
  - intros l H. now rewrite (trace_allowedHeaders_configured options req (Arr l) H).
  - intros s H Hs. rewrite (trace_allowedHeaders_configured options req (Str s) H).
    + destruct s; [congruence | reflexivity].
    + destruct s; [congruence | reflexivity].
  - intros Ha Hb.
    assert (forall k1 k2,
              trace (match truthy_headers
                             (or_else (get (allowedHeaders options)) (get (headers options))) with
                     | Some h => k1 h
                     | None => k2
                     end) = trace k2) as Hskip
      by (intros; now rewrite (unset_falls_through _ _ Ha Hb)).
    unfold allowedHeaders_. rewrite Hskip. split.
    + intros v -> Hv. destruct v; [congruence | reflexivity].
    + intros [-> | ->]; reflexivity.
  - intros Hp. split.
    + now apply allow_headers_calls.
    + now apply vary_request_headers_iff.
Qed.

Lemma request_headers_reflected_witness :
  trace (allowedHeaders_ empty
           (OPTIONS {["access-control-request-headers" := "X-Foo,X-Bar"]}))
  = [Vary "Access-Control-Request-Headers";
     SetHeader "Access-Control-Allow-Headers" "X-Foo,X-Bar"].
Proof.
  destruct (allowed_headers_configured_or_reflected empty
              (OPTIONS {["access-control-request-headers" := "X-Foo,X-Bar"]}))
    as (_ & _ & Hreflect & _).
  destruct (Hreflect (or_introl eq_refl) (or_introl eq_refl)) as [Hyes _].
  apply Hyes; [reflexivity | discriminate].
Defined.

(** C5, as stated, fails when [allowedHeaders] is the empty array: the
    requested headers are not reflected and no header is set. *)
Lemma empty_allowed_headers_not_reflected :
  configured_nonempty (get (allowedHeaders (allowed_headers_only (Arr [])))) = false
  /\ ~ allowed_headers_rule (allowed_headers_only (Arr []))
         (OPTIONS {["access-control-request-headers" := "X-Foo"]}).
Proof.
  split; [reflexivity|].
  unfold allowed_headers_rule. simpl. unfold reflects_request.
  replace (Req.headers (OPTIONS {["access-control-request-headers" := "X-Foo"]})
             !! "access-control-request-headers") with (Some "X-Foo") by reflexivity.
  intros [Hset _]. vm_compute in Hset. discriminate Hset.
Qed.

(** ** The preflight branch *)

Lemma only_touches_header_calls name field calls :
  only_touches name field calls -> Forall (fun e => is_header_call e = true) calls.
Proof.
  apply List.Forall_impl. intros [] H; try contradiction; reflexivity.
Qed.

Lemma isPreflight_iff req :
  isPreflight req = true
  <-> exists method, Req.method req = Some method /\ toUpperCase method = "OPTIONS".
Proof.
  unfold isPreflight. split.
  - destruct (Req.method req) as [m|]; simpl; [|discriminate].
    destruct (nonempty m); [|discriminate].
    intros H. exists m. split; [reflexivity | now apply String.eqb_eq].
  - intros (m & -> & Hm).
    destruct m; [discriminate Hm|].
    cbn [truthy_string nonempty]. now apply String.eqb_eq.
Qed.

(** C2: on a request whose method is OPTIONS in any letter case, when
    [preflightContinue] is not set, the handler, after its header calls,
    assigns [optionsSuccessStatus] to the status code, sets Content-Length to
    [0] and ends the response without a body; the continuation is not
    called.  Merged over the defaults, an [optionsSuccessStatus] that was not
    supplied is 204. *)
Theorem preflight_short_circuit options req method next w :
  Req.method req = Some method ->
  toUpperCase method = "OPTIONS" ->
  get (preflightContinue options) <> Some true ->
  (exists cors_headers,
      Forall (fun e => is_header_call e = true) cors_headers
      /\ header_calls "Content-Length" cors_headers = []
      /\ run (corsHandler options req next) w
         = mkWorld (heap w)
             (log w ++ cors_headers
                ++ [StatusCode (get (optionsSuccessStatus options));
                    SetHeader "Content-Length" "0"; End]))
  /\ (forall supplied : Options,
        own (optionsSuccessStatus supplied) = false ->
        get (optionsSuccessStatus (spread defaults supplied)) = Some 204).
Proof.
  intros Hmethod Hupper Hc.
  assert (isPreflight req = true) as Hp by (apply isPreflight_iff; eauto).
  split.
  - assert (match get (preflightContinue options) with Some b => b | None => false end
            = false) as Hfalse.
    { destruct (get (preflightContinue options)) as [[]|]; congruence. }
    pose proof (originHeaders_touches options req) as T1.
    pose proof (credentialsHeaders_touches options) as T2.
    pose proof (methodsHeaders_touches options) as T3.
    pose proof (allowedHeaders_touches options req) as T4.
    pose proof (cacheHeaders_touches options) as T5.
    pose proof (exposedHeaders_touches options) as T6.
    exists (trace (originHeaders options req) ++ trace (credentialsHeaders options)
            ++ trace (methodsHeaders options) ++ trace (allowedHeaders_ options req)
            ++ trace (cacheHeaders options) ++ trace (exposedHeaders_ options)).
    split; [|split].
    + repeat (apply Forall_app; split); eauto using only_touches_header_calls.
    + rewrite !header_calls_app.
      rewrite (header_calls_other _ _ _ _ T1) by differ.
      rewrite (header_calls_other _ _ _ _ T2) by differ.
      rewrite (header_calls_other _ _ _ _ T3) by differ.
      rewrite (header_calls_other _ _ _ _ T4) by differ.
      rewrite (header_calls_other _ _ _ _ T5) by differ.
      rewrite (header_calls_other _ _ _ _ T6) by differ.
      reflexivity.
    + unfold corsHandler. rewrite Hp, Hfalse.
      assert (logs_only (set_statusCode (get (optionsSuccessStatus options)) ;;
                         setHeader "Content-Length" "0" ;; end_)) as Hend
        by (unfold set_statusCode, setHeader, end_; logs).
      rewrite run_logs_only by (repeat (apply logs_only_seq; auto with cors)).
      rewrite !trace_seq
        by (unfold set_statusCode, setHeader, end_; auto 10 with cors).
      f_equal. rewrite <- !app_assoc. reflexivity.
  - intros supplied Hown. unfold spread. simpl.
    destruct (optionsSuccessStatus supplied); [reflexivity | discriminate | discriminate].
Qed.

Lemma preflight_short_circuit_witness :
  exists cors_headers,
    Forall (fun e => is_header_call e = true) cors_headers
    /\ header_calls "Content-Length" cors_headers = []
    /\ run (corsHandler default_options (Req.mk (Some "options") ∅) host_next) boot
       = mkWorld (heap boot)
           (log boot ++ cors_headers
              ++ [StatusCode (Some 204); SetHeader "Content-Length" "0"; End]).
Proof.
  refine (proj1 (preflight_short_circuit default_options (Req.mk (Some "options") ∅)
                   "options" host_next boot _ _ _));
    [reflexivity | reflexivity | discriminate].
Defined.

(** ** The heap only grows *)

Lemma extends_refl w : extends w w.
Proof. exists []. now rewrite app_nil_r. Qed.

Lemma extends_trans w1 w2 w3 : extends w1 w2 -> extends w2 w3 -> extends w1 w3.
Proof.
  intros [m1 H1] [m2 H2]. exists (m1 ++ m2). now rewrite H2, H1, app_assoc.
Qed.

Lemma extends_lookup w w' (a : loc) o :
  extends w w' -> heap w !! a = Some o -> heap w' !! a = Some o.
Proof. intros [more ->] H. now apply lookup_app_l_Some. Qed.

Lemma grows_ret {A} (a : A) : grows (ret a).
Proof. intros w. split; intros; apply extends_refl. Qed.

Lemma grows_bind {A B} (m : M A) (f : A -> M B) :
  grows m -> (forall a, grows (f a)) -> grows (bind m f).
Proof.
  intros Hm Hf w. unfold bind.
  destruct (Hm w) as [H1 H2]. destruct (m w) as [[a w1] d1]. simpl in *.
  destruct (Hf a w1) as [H3 H4]. destruct (f a w1) as [[b w2] d2]. simpl in *.
  split; [now apply extends_trans with w1|].
  intros w'. apply extends_trans with (d1 w'); auto.
Qed.

Lemma grows_emit e : grows (emit e).
Proof.
  intros w. split; intros; [|apply extends_refl].
  exists []. simpl. now rewrite app_nil_r.
Qed.

Lemma grows_alloc o : grows (alloc o).
Proof.
  intros w. split; intros; [|apply extends_refl]. now exists [o].
Qed.

Lemma grows_load l : grows (load l).
Proof. intros w. split; intros; apply extends_refl. Qed.

Lemma run_extends {A} (m : M A) w : grows m -> extends w (run m w).
Proof.
  intros Hm. unfold run. destruct (Hm w) as [H1 H2].
  destruct (m w) as [[a w1] d]. simpl in *.
  apply extends_trans with w1; auto.
Qed.

Lemma grows_later m : grows m -> grows (later m).
Proof.
  intros Hm w. split; simpl; [apply extends_refl|].
  intros w'. now apply run_extends.
Qed.

Lemma grows_call {A} (c : Completion A) k :
  (forall e r, grows (k e r)) -> grows (call c k).
Proof. intros Hk. unfold call. destruct (timing c); auto using grows_later. Qed.

Lemma grows_logs_only m : logs_only m -> grows m.
Proof.
  intros Hm w. rewrite Hm. simpl. split; intros; [|apply extends_refl].
  exists []. simpl. now rewrite app_nil_r.
Qed.

Lemma grows_merge l : grows (merge l).
Proof.
  unfold merge. repeat (apply grows_bind; [|intros]);
    auto using grows_load, grows_alloc.
Qed.

Lemma grows_corsMdlwrOrigin req options err origin :
  grows (corsMdlwrOrigin req host_next options err origin).
Proof.
  unfold corsMdlwrOrigin.
  assert (grows (host_next err)) by apply grows_emit.
  destruct origin as [og|]; [|assumption].
  destruct (_ || _); [assumption|].
  repeat (apply grows_bind; [|intros]);
    auto using grows_load, grows_alloc, grows_logs_only, corsHandler_logs.
Qed.

Lemma grows_corsMdlwrOptions req err options :
  grows (corsMdlwrOptions req host_next err options).
Proof.
  unfold corsMdlwrOptions.
  destruct (truthy err); [apply grows_emit|].
  apply grows_bind; [apply grows_merge|intros l].
  apply grows_bind; [apply grows_load|intros o].
  apply grows_bind; [|intros; apply grows_emit].
  destruct (get (origin o)) as [[og|f]|]; cbn [truthy_setting].
  - destruct (truthy_origin og); [apply grows_corsMdlwrOrigin | apply grows_ret].
  - apply grows_call. intros. apply grows_corsMdlwrOrigin.
  - apply grows_ret.
Qed.

Lemma grows_corsMiddleware corsOpts req :
  grows (corsMiddleware corsOpts req host_next).
Proof.
  unfold corsMiddleware. destruct corsOpts.
  - apply grows_corsMdlwrOptions.
  - apply grows_call. intros. apply grows_corsMdlwrOptions.
Qed.

(** ** Merging over the defaults *)

Lemma spread_layered d s : layered d s (spread d s).
Proof.
  unfold layered, spread, layer. simpl.
  repeat split;
    match goal with |- context [own ?x] => destruct x; reflexivity end.
Qed.

Lemma merge_spec w l d o :
  heap w !! defaults_ref = Some d ->
  heap w !! l = Some o ->
  merge l w
  = (length (heap w), mkWorld (heap w ++ [spread d o]) (log w), fun w' => w').
Proof.
  intros Hd Ho. unfold merge, bind, load, alloc. simpl.
  rewrite Hd, Ho. reflexivity.
Qed.

(** C8: merging a supplied object over the defaults makes a new object, at
    an address that was free, in which every property the supplied object
    owns has the supplied value and every other property has its default;
    the defaults object, the supplied object and every other object of the
    heap are as they were, after the merge and after the whole middleware. *)
Theorem merge_layers_over_defaults w l supplied :
  heap w !! defaults_ref = Some defaults ->
  heap w !! l = Some supplied ->
  (exists merged,
      let '(l', w', _) := merge l w in
      heap w !! l' = None
      /\ heap w' !! l' = Some merged
      /\ layered defaults supplied merged
      /\ heap w' !! defaults_ref = Some defaults
      /\ heap w' !! l = Some supplied
      /\ (forall (a : loc) o, heap w !! a = Some o -> heap w' !! a = Some o)
      /\ log w' = log w)
  /\ (forall corsOpts req,
        heap (run (corsMiddleware corsOpts req host_next) w) !! defaults_ref
        = Some defaults).
Proof.
  intros Hd Hs. split.
  - exists (spread defaults supplied).
    rewrite (merge_spec w l defaults supplied Hd Hs). simpl.
    refine (conj _ (conj _ (conj _ (conj _ (conj _ (conj _ _)))))).
    + apply lookup_ge_None_2. lia.
    + rewrite lookup_app_r by lia. now rewrite Nat.sub_diag.
    + apply spread_layered.
    + now apply lookup_app_l_Some.
    + now apply lookup_app_l_Some.
    + intros a o Ha. now apply lookup_app_l_Some.
    + reflexivity.
  - intros corsOpts req.
    apply (extends_lookup w); [|assumption].
    apply run_extends, grows_corsMiddleware.
Qed.

Lemma merge_witness :
  heap (run (corsMiddleware (Object caller_options) (GET ∅) host_next)
          (world_with (fixed_options (Single (OStr "http://a.com")))))
    !! defaults_ref
  = Some defaults.
Proof.
  exact (proj2 (merge_layers_over_defaults
                  (world_with (fixed_options (Single (OStr "http://a.com"))))
                  caller_options
                  (fixed_options (Single (OStr "http://a.com")))
                  eq_refl eq_refl)
           (Object caller_options) (GET ∅)).
Defined.

(** ** Resolving the origin through a callback *)

Lemma run_bind_now {A B} (m : M A) (f : A -> M B) w a w1 :
  m w = (a, w1, fun w' => w') -> run (bind m f) w = run (f a) w1.
Proof.
  intros H. unfold run, bind. rewrite H.
  destruct (f a w1) as [[b w2] d2]. reflexivity.
Qed.

Lemma load_spec w (l : loc) o :
  heap w !! l = Some o -> load l w = (o, w, fun w' => w').
Proof. intros H. unfold load. now rewrite H. Qed.

Lemma run_call {A} (c : Completion A) k w :
  run (call c k) w = run (k (error c) (result c)) w.
Proof. unfold call. destruct (timing c); reflexivity. Qed.

Lemma corsMdlwrOrigin_refuses req next l err origin :
  truthy err || denies origin = true ->
  corsMdlwrOrigin req next l err origin = next err.
Proof.
  intros H. unfold corsMdlwrOrigin.
  destruct origin as [og|]; [|reflexivity].
  cbn [denies] in H. now rewrite H.
Qed.

Lemma run_later_seq (m n : M unit) w :
  logs_only n -> run (later m ;; n) w = run m (run n w).
Proof.
  intros Hn. rewrite (run_logs_only n w Hn).
  unfold run at 1, bind, later. rewrite (Hn w). reflexivity.
Qed.

Lemma run_call_then_next {A} (c : Completion A) (k : Value -> A -> M unit) w :
  logs_only (k (error c) (result c)) ->
  run (call c k ;; host_next VUndefined) w
  = mkWorld (heap w)
      (log w ++ match timing c with
                | Sync => trace (k (error c) (result c)) ++ [Next VUndefined]
                | Async => [Next VUndefined] ++ trace (k (error c) (result c))
                end).
Proof.
  intros Hk. unfold call. destruct (timing c).
  - rewrite run_logs_only by (apply logs_only_seq; [assumption | apply logs_only_emit]).
    rewrite trace_seq by (assumption || apply logs_only_emit). reflexivity.
  - rewrite run_later_seq by apply logs_only_emit.
    rewrite !run_logs_only by (assumption || apply logs_only_emit).
    simpl. now rewrite <- app_assoc.
Qed.

Lemma options_with_refusing_callback req w err l o f :
  truthy err = false ->
  heap w !! defaults_ref = Some defaults ->
  heap w !! l = Some o ->
  origin o = Present (Callback f) ->
  truthy (error (f (Req.headers req !! "origin")))
  || denies (result (f (Req.headers req !! "origin"))) = true ->
  run (corsMdlwrOptions req host_next err l) w
  = mkWorld (heap w ++ [spread defaults o])
      (log w ++ match timing (f (Req.headers req !! "origin")) with
                | Sync => [Next (error (f (Req.headers req !! "origin"))); Next VUndefined]
                | Async => [Next VUndefined; Next (error (f (Req.headers req !! "origin")))]
                end).
Proof.
  intros He Hd Ho Hf Hrefuse. unfold corsMdlwrOptions. rewrite He.
  rewrite (run_bind_now _ _ _ _ _ (merge_spec w l defaults o Hd Ho)).
  rewrite (run_bind_now (load (length (heap w))) _ _ (spread defaults o)
             (mkWorld (heap w ++ [spread defaults o]) (log w))).
  2:{ apply load_spec. simpl. rewrite lookup_app_r by lia. now rewrite Nat.sub_diag. }
  assert (get (origin (spread defaults o)) = Some (Callback f)) as ->
    by (unfold spread; simpl; now rewrite Hf).
  cbn [truthy_setting].
  rewrite run_call_then_next;
    rewrite (corsMdlwrOrigin_refuses _ _ _ _ _ Hrefuse); [|apply logs_only_emit].
  simpl. destruct (timing _); reflexivity.
Qed.

(** C4: when the origin callback yields an error, the continuation is
    called with that very error and nothing is done to the response; when it
    yields no error and a falsy origin, the continuation is called without an
    error and again nothing is done to the response. *)
Theorem origin_callback_error_or_denial corsOpts req w o f :
  heap w !! defaults_ref = Some defaults ->
  truthy (error (resolved corsOpts req)) = false ->
  heap w !! result (resolved corsOpts req) = Some o ->
  origin o = Present (Callback f) ->
  truthy (error (f (Req.headers req !! "origin"))) = true
  \/ denies (result (f (Req.headers req !! "origin"))) = true ->
  exists calls,
    log (run (corsMiddleware corsOpts req host_next) w) = log w ++ calls
    /\ In (Next (error (f (Req.headers req !! "origin")))) calls
    /\ Forall (fun e => touches_response e = false) calls
    /\ (truthy (error (f (Req.headers req !! "origin"))) = false ->
        Forall (fun e => exists v, e = Next v /\ truthy v = false) calls).
Proof.
  intros Hd He Ho Hf Hrefuse.
  set (c := f (Req.headers req !! "origin")) in *.
  assert (truthy (error c) || denies (result c) = true) as Hor
    by (destruct Hrefuse as [-> | ->]; [reflexivity | apply orb_true_r]).
  exists (match timing c with
          | Sync => [Next (error c); Next VUndefined]
          | Async => [Next VUndefined; Next (error c)]
          end).
  split; [|split; [|split]].
  - assert (run (corsMiddleware corsOpts req host_next) w
            = run (corsMdlwrOptions req host_next (error (resolved corsOpts req))
                     (result (resolved corsOpts req))) w) as ->
      by (destruct corsOpts; [reflexivity | apply run_call]).
    now rewrite (options_with_refusing_callback req w _ _ o f He Hd Ho Hf Hor).
  - destruct (timing c); simpl; auto.
  - destruct (timing c); repeat constructor.
  - intros Hno. destruct (timing c); repeat constructor; eauto.
Qed.

Lemma origin_callback_error_witness :
  exists calls,
    log (run (corsMiddleware (Object caller_options) (GET ∅) host_next)
           (world_with (callback_options failing_callback)))
    = [] ++ calls
    /\ In (Next (VError "origin lookup failed")) calls
    /\ Forall (fun e => touches_response e = false) calls
    /\ (truthy (VError "origin lookup failed") = false ->
        Forall (fun e => exists v, e = Next v /\ truthy v = false) calls).
Proof.
  exact (origin_callback_error_or_denial (Object caller_options) (GET ∅)
           (world_with (callback_options failing_callback))
           (callback_options failing_callback) failing_callback
           eq_refl eq_refl eq_refl eq_refl (or_introl eq_refl)).
Defined.

Example origin_callback_denial :
  log (run (corsMiddleware (Object caller_options)
              (OPTIONS {["origin" := "http://a.com"]}) host_next)
         (world_with (callback_options denying_callback)))
  = [Next VNull; Next VUndefined].
Proof. reflexivity. Qed.

(** ** How often the continuation is called *)

Lemma corsMdlwrOrigin_accepts req w (l : loc) o err og :
  heap w !! l = Some o ->
  truthy err = false ->
  truthy_origin og = true ->
  corsMdlwrOrigin req host_next l err (Some og) w
  = (tt,
     mkWorld (heap w ++ [with_origin o (Fixed og)])
       (log w ++ actions (with_origin o og) req),
     fun w' => w').
Proof.
  intros Ho He Hog. unfold corsMdlwrOrigin. rewrite He, Hog. simpl.
  unfold bind, alloc. rewrite (load_spec w l o Ho). simpl.
  rewrite corsHandler_logs. reflexivity.
Qed.

Lemma options_with_fixed_origin req w err l o og :
  truthy err = false ->
  heap w !! defaults_ref = Some defaults ->
  heap w !! l = Some o ->
  get (origin (spread defaults o)) = Some (Fixed og) ->
  truthy_origin og = true ->
  run (corsMdlwrOptions req host_next err l) w
  = mkWorld (heap w ++ [spread defaults o; with_origin (spread defaults o) (Fixed og)])
      (log w ++ actions (with_origin (spread defaults o) og) req ++ [Next VUndefined]).
Proof.
  intros He Hd Ho Hf Hog. unfold corsMdlwrOptions. rewrite He.
  rewrite (run_bind_now _ _ _ _ _ (merge_spec w l defaults o Hd Ho)).
  assert ((heap w ++ [spread defaults o]) !! length (heap w) = Some (spread defaults o))
    as Hnew by (rewrite lookup_app_r by lia; now rewrite Nat.sub_diag).
  rewrite (run_bind_now (load (length (heap w))) _ _ (spread defaults o)
             (mkWorld (heap w ++ [spread defaults o]) (log w)))
    by (now apply load_spec).
  rewrite Hf. cbn [truthy_setting]. rewrite Hog.
  erewrite run_bind_now
    by (apply (corsMdlwrOrigin_accepts req _ _ (spread defaults o)); auto).
  unfold run, host_next, emit. simpl.
  now rewrite <- !app_assoc.
Qed.

Lemma next_calls_of_parts name field calls :
  only_touches name field calls -> List.filter is_next calls = [].
Proof.
  induction 1 as [|e calls He _ IH]; [reflexivity|].
  simpl. destruct e; try contradiction; exact IH.
Qed.

Lemma next_calls_actual options req :
  isPreflight req = false ->
  List.filter is_next (actions options req) = [Next VUndefined].
Proof.
  intros Hp. rewrite (actions_actual options req Hp), !List.filter_app.
  rewrite (next_calls_of_parts _ _ _ (originHeaders_touches options req)).
  rewrite (next_calls_of_parts _ _ _ (credentialsHeaders_touches options)).
  rewrite (next_calls_of_parts _ _ _ (exposedHeaders_touches options)).
  reflexivity.
Qed.

(** With a fixed, truthy origin, every request that is not a preflight gets
    the continuation called by the handler and once more by
    [corsMdlwrOptions]. *)
Lemma fixed_origin_next_twice req w l o og :
  heap w !! defaults_ref = Some defaults ->
  heap w !! l = Some o ->
  get (origin (spread defaults o)) = Some (Fixed og) ->
  truthy_origin og = true ->
  isPreflight req = false ->
  exists calls,
    log (run (corsMiddleware (Object l) req host_next) w) = log w ++ calls
    /\ List.filter is_next calls = [Next VUndefined; Next VUndefined].
Proof.
  intros Hd Ho Hf Hog Hp.
  exists (actions (with_origin (spread defaults o) og) req ++ [Next VUndefined]).
  split.
  - unfold corsMiddleware.
    now rewrite (options_with_fixed_origin req w VNull l o og eq_refl Hd Ho Hf Hog).
  - rewrite List.filter_app, next_calls_actual by assumption. reflexivity.
Qed.

(** The branches on which the continuation is called once: an error from
    the options callback, and an origin that is switched off. *)
Lemma options_error_next_once corsOpts req w :
  truthy (error (resolved corsOpts req)) = true ->
  log (run (corsMiddleware corsOpts req host_next) w)
  = log w ++ [Next (error (resolved corsOpts req))].
Proof.
  intros He.
  assert (run (corsMiddleware corsOpts req host_next) w
          = run (corsMdlwrOptions req host_next (error (resolved corsOpts req))
                   (result (resolved corsOpts req))) w) as ->
    by (destruct corsOpts; [reflexivity | apply run_call]).
  unfold corsMdlwrOptions. now rewrite He.
Qed.

Lemma origin_off_next_once req w l o :
  heap w !! defaults_ref = Some defaults ->
  heap w !! l = Some o ->
  match get (origin (spread defaults o)) with
  | Some setting => truthy_setting setting = false
  | None => True
  end ->
  log (run (corsMiddleware (Object l) req host_next) w) = log w ++ [Next VUndefined].
Proof.
  intros Hd Ho Hoff. unfold corsMiddleware, corsMdlwrOptions. simpl.
  rewrite (run_bind_now _ _ _ _ _ (merge_spec w l defaults o Hd Ho)).
  assert ((heap w ++ [spread defaults o]) !! length (heap w) = Some (spread defaults o))
    as Hnew by (rewrite lookup_app_r by lia; now rewrite Nat.sub_diag).
  rewrite (run_bind_now (load (length (heap w))) _ _ (spread defaults o)
             (mkWorld (heap w ++ [spread defaults o]) (log w)))
    by (now apply load_spec).
  destruct (get (origin (spread defaults o))) as [setting|]; [rewrite Hoff|]; reflexivity.
Qed.

(** The preflight branch seen from the middleware: with a fixed, truthy
    origin the response is ended as [corsHandler] does it, and the
    continuation is still called afterwards. *)
Lemma middleware_preflight_fixed_origin req w l o og :
  heap w !! defaults_ref = Some defaults ->
  heap w !! l = Some o ->
  get (origin (spread defaults o)) = Some (Fixed og) ->
  truthy_origin og = true ->
  isPreflight req = true ->
  get (preflightContinue (spread defaults o)) <> Some true ->
  exists cors_headers,
    Forall (fun e => is_header_call e = true) cors_headers
    /\ log (run (corsMiddleware (Object l) req host_next) w)
       = log w ++ cors_headers
           ++ [StatusCode (get (optionsSuccessStatus (spread defaults o)));
               SetHeader "Content-Length" "0"; End; Next VUndefined].
Proof.
  intros Hd Ho Hf Hog Hp Hc.
  set (options := with_origin (spread defaults o) og).
  exists (trace (originHeaders options req) ++ trace (credentialsHeaders options)
          ++ trace (methodsHeaders options) ++ trace (allowedHeaders_ options req)
          ++ trace (cacheHeaders options) ++ trace (exposedHeaders_ options)).
  split.
  - repeat (apply Forall_app; split);
      eauto using only_touches_header_calls, originHeaders_touches,
        credentialsHeaders_touches, methodsHeaders_touches, allowedHeaders_touches,
        cacheHeaders_touches, exposedHeaders_touches.
  - unfold corsMiddleware.
    rewrite (options_with_fixed_origin req w VNull l o og eq_refl Hd Ho Hf Hog).
    fold options. simpl. rewrite (actions_preflight options req Hp).
    unfold terminal.
    assert (match get (preflightContinue options) with Some b => b | None => false end
            = false) as ->.
    { change (get (preflightContinue options))
        with (get (preflightContinue (spread defaults o))).
      destruct (get (preflightContinue (spread defaults o))) as [[]|]; congruence. }
    rewrite <- !app_assoc. reflexivity.
Qed.

(** The promise adapter under an origin callback that fails from a later
    turn: [resolve] has already been called when [reject] is. *)
Example deferred_error_after_resolve :
  log (run (asyncHandlerFactory (Object caller_options) (GET ∅))
         (world_with (callback_options failing_callback)))
  = [Resolve; Reject (VError "origin lookup failed")]
  /\ promise (log (run (asyncHandlerFactory (Object caller_options) (GET ∅))
                     (world_with (callback_options failing_callback))))
     = Fulfilled.
Proof. split; reflexivity. Qed.

(** C1, at the request [GET /] under the options [{}]: the continuation is
    called twice, once by the handler and once more when [corsMdlwrOptions]
    falls through to its last statement; the promise adapter has [resolve]
    called twice. *)
Theorem continuation_called_twice :
  log (run (corsMiddleware (Object caller_options) (GET ∅) host_next) (world_with no_options))
  = [SetHeader "Access-Control-Allow-Origin" "*"; Next VUndefined; Next VUndefined]
  /\ length (List.filter is_next
               (log (run (corsMiddleware (Object caller_options) (GET ∅) host_next)
                       (world_with no_options)))) = 2%nat
  /\ log (run (asyncHandlerFactory (Object caller_options) (GET ∅)) (world_with no_options))
     = [SetHeader "Access-Control-Allow-Origin" "*"; Resolve; Resolve].
Proof. repeat split; reflexivity. Qed.

(** ** Worked requests *)

(** A list policy and an origin it does not hold: nothing is set. *)
Example origin_not_in_list :
  actions (origin_only (Array [OStr "http://a.com"; ORegExp b_com]))
          (GET {["origin" := "http://evil.com"]})
  = [Next VUndefined].
Proof. reflexivity. Qed.

(** A preflight under the options [{}], through the whole middleware. *)
Example default_preflight :
  log (run (corsMiddleware (Object caller_options)
              (OPTIONS {["origin" := "http://a.com"]}) host_next)
         (world_with no_options))
  = [SetHeader "Access-Control-Allow-Origin" "*";
     SetHeader "Access-Control-Allow-Methods" "GET,HEAD,PUT,PATCH,POST,DELETE";
     StatusCode (Some 204); SetHeader "Content-Length" "0"; End;
     Next VUndefined].
Proof. reflexivity. Qed.

(** [preflightContinue: true]: the preflight headers are set and the
    continuation is called by the handler. *)
Example preflight_continue :
  actions (mkOptions (Present (Single (OStr "http://a.com")))
             (Present (Arr ["GET"; "POST"])) Absent Absent
             (Present (Str "X-Total")) (Present (VBool true)) (Present (Num 600))
             (Present true) (Present 204))
          (OPTIONS {["access-control-request-headers" := "X-Foo,X-Bar"]})
  = [Vary "Origin";
     SetHeader "Access-Control-Allow-Origin" "http://a.com";
     SetHeader "Access-Control-Allow-Credentials" "true";
     SetHeader "Access-Control-Allow-Methods" "GET,POST";
     Vary "Access-Control-Request-Headers";
     SetHeader "Access-Control-Allow-Headers" "X-Foo,X-Bar";
     SetHeader "Access-Control-Max-Age" "600";
     SetHeader "Access-Control-Expose-Headers" "X-Total";
     Next VUndefined].
Proof. reflexivity. Qed.

(** An options callback that fails: the error goes to the continuation,
    once, and nothing else happens. *)
Example options_callback_error :
  log (run (corsMiddleware
              (Function (fun _ => mkCompletion Async (VError "no options") caller_options))
              (GET ∅) host_next)
         (world_with no_options))
  = [Next (VError "no options")].
Proof. reflexivity. Qed.

(** * Further properties of the handler *)

(** ** The calls of the handler, in general *)

Lemma actions_shape options req :
  exists cors_headers,
    Forall (fun e => is_header_call e = true) cors_headers
    /\ header_calls "Content-Length" cors_headers = []
    /\ actions options req
       = cors_headers
         ++ (if short_circuits options req
             then [StatusCode (get (optionsSuccessStatus options));
                   SetHeader "Content-Length" "0"; End]
             else [Next VUndefined]).
Proof.
  pose proof (originHeaders_touches options req) as T1.
  pose proof (credentialsHeaders_touches options) as T2.
  pose proof (methodsHeaders_touches options) as T3.
  pose proof (allowedHeaders_touches options req) as T4.
  pose proof (cacheHeaders_touches options) as T5.
  pose proof (exposedHeaders_touches options) as T6.
  unfold short_circuits. destruct (isPreflight req) eqn:Hp.
  - exists (trace (originHeaders options req) ++ trace (credentialsHeaders options)
            ++ trace (methodsHeaders options) ++ trace (allowedHeaders_ options req)
            ++ trace (cacheHeaders options) ++ trace (exposedHeaders_ options)).
    split; [|split].
    + repeat (apply Forall_app; split); eauto using only_touches_header_calls.
    + rewrite !header_calls_app.
      rewrite (header_calls_other _ _ _ _ T1) by differ.
      rewrite (header_calls_other _ _ _ _ T2) by differ.
      rewrite (header_calls_other _ _ _ _ T3) by differ.
      rewrite (header_calls_other _ _ _ _ T4) by differ.
      rewrite (header_calls_other _ _ _ _ T5) by differ.
      rewrite (header_calls_other _ _ _ _ T6) by differ.
      reflexivity.
    + rewrite (actions_preflight options req Hp). unfold terminal.
      rewrite <- !app_assoc.
      destruct (match get (preflightContinue options) with Some b => b | None => false end);
        reflexivity.
  - exists (trace (originHeaders options req) ++ trace (credentialsHeaders options)
            ++ trace (exposedHeaders_ options)).
    split; [|split].
    + repeat (apply Forall_app; split); eauto using only_touches_header_calls.
    + rewrite !header_calls_app.
      rewrite (header_calls_other _ _ _ _ T1) by differ.
      rewrite (header_calls_other _ _ _ _ T2) by differ.
      rewrite (header_calls_other _ _ _ _ T6) by differ.
      reflexivity.
    + rewrite (actions_actual options req Hp). rewrite <- !app_assoc. reflexivity.
Qed.

(** X1: the handler finishes every request in exactly one of two ways,
    after all its header calls: it ends the response (status, Content-Length,
    [end]) without calling the continuation, which it does exactly for a
    preflight whose [preflightContinue] is not set, or it calls the
    continuation once, without an error, and leaves status and end alone. *)
Theorem handler_ends_or_continues options req :
  exists cors_headers,
    Forall (fun e => is_header_call e = true) cors_headers
    /\ ((isPreflight req = true
         /\ get (preflightContinue options) <> Some true
         /\ actions options req
            = cors_headers
              ++ [StatusCode (get (optionsSuccessStatus options));
                  SetHeader "Content-Length" "0"; End])
        \/ ((isPreflight req = false \/ get (preflightContinue options) = Some true)
            /\ actions options req = cors_headers ++ [Next VUndefined])).
Proof.
  destruct (actions_shape options req) as (hs & Hhs & _ & Hact).
  exists hs. split; [assumption|].
  unfold short_circuits in Hact.
  destruct (isPreflight req); simpl in Hact.
  - destruct (get (preflightContinue options)) as [[]|]; simpl in Hact.
    + right. split; [now right | assumption].
    + left. repeat split; [discriminate | assumption].
    + left. repeat split; [discriminate | assumption].
  - right. split; [now left | assumption].
Qed.

(** ** Actual requests *)

Ltac actual_calls :=
  repeat match goal with
         | |- Forall _ (trace (match ?x with _ => _ end)) => destruct x
         | |- Forall _ (trace (if ?x then _ else _)) => destruct x
         end;
  repeat constructor.

Lemma originHeaders_actual options req :
  Forall (fun e => actual_call e = true) (trace (originHeaders options req)).
Proof. unfold originHeaders. actual_calls. Qed.

Lemma credentialsHeaders_actual options :
  Forall (fun e => actual_call e = true) (trace (credentialsHeaders options)).
Proof. unfold credentialsHeaders. actual_calls. Qed.

Lemma exposedHeaders_actual options :
  Forall (fun e => actual_call e = true) (trace (exposedHeaders_ options)).
Proof. unfold exposedHeaders_. actual_calls. Qed.

(** X2: a request that is not a preflight gets at most the origin,
    credentials and exposed-headers headers and [Vary: Origin], then the
    continuation; Access-Control-Allow-Methods, Access-Control-Allow-Headers
    and Access-Control-Max-Age are never set for it, whatever is configured
    and whatever the request asks for. *)
Theorem actual_request_headers options req :
  isPreflight req = false ->
  (exists cors_headers,
      Forall (fun e => actual_call e = true) cors_headers
      /\ actions options req = cors_headers ++ [Next VUndefined])
  /\ header_calls "Access-Control-Allow-Methods" (actions options req) = []
  /\ header_calls "Access-Control-Allow-Headers" (actions options req) = []
  /\ header_calls "Access-Control-Max-Age" (actions options req) = []
  /\ ~ In (Vary "Access-Control-Request-Headers") (actions options req).
Proof.
  intros Hp. rewrite (actions_actual options req Hp).
  pose proof (originHeaders_touches options req) as T1.
  pose proof (credentialsHeaders_touches options) as T2.
  pose proof (exposedHeaders_touches options) as T6.
  split; [|split; [|split; [|split]]].
  - exists (trace (originHeaders options req) ++ trace (credentialsHeaders options)
            ++ trace (exposedHeaders_ options)).
    split; [|now rewrite <- !app_assoc].
    repeat (apply Forall_app; split);
      auto using originHeaders_actual, credentialsHeaders_actual, exposedHeaders_actual.
  - rewrite !header_calls_app.
    rewrite (header_calls_other _ _ _ _ T1), (header_calls_other _ _ _ _ T2),
      (header_calls_other _ _ _ _ T6) by differ.
    reflexivity.
  - rewrite !header_calls_app.
    rewrite (header_calls_other _ _ _ _ T1), (header_calls_other _ _ _ _ T2),
      (header_calls_other _ _ _ _ T6) by differ.
    reflexivity.
  - rewrite !header_calls_app.
    rewrite (header_calls_other _ _ _ _ T1), (header_calls_other _ _ _ _ T2),
      (header_calls_other _ _ _ _ T6) by differ.
    reflexivity.
  - rewrite !in_app_iff.
    pose proof (no_vary_other _ _ "Access-Control-Request-Headers" _ T1) as N1.
    pose proof (no_vary_other _ _ "Access-Control-Request-Headers" _ T2) as N2.
    pose proof (no_vary_other _ _ "Access-Control-Request-Headers" _ T6) as N6.
    assert ("Access-Control-Request-Headers" <> "Origin") by differ.
    assert ("Access-Control-Request-Headers" <> "") by differ.
    simpl. intuition discriminate.
Qed.

Lemma actual_request_witness :
  header_calls "Access-Control-Allow-Methods"
    (actions everything_configured
       (GET {["access-control-request-headers" := "X-Foo"]})) = [].
Proof.
  exact (proj1 (proj2 (actual_request_headers everything_configured
                         (GET {["access-control-request-headers" := "X-Foo"]})
                         eq_refl))).
Defined.

(** ** The origin rule for booleans and strings *)

Lemma vary_origin_iff options req :
  In (Vary "Origin") (actions options req)
  <-> In (Vary "Origin") (trace (originHeaders options req)).
Proof.
  pose proof (no_vary_other _ _ "Origin" _ (credentialsHeaders_touches options)) as N2.
  pose proof (no_vary_other _ _ "Origin" _ (methodsHeaders_touches options)) as N3.
  pose proof (no_vary_other _ _ "Origin" _ (allowedHeaders_touches options req)) as N4.
  pose proof (no_vary_other _ _ "Origin" _ (cacheHeaders_touches options)) as N5.
  pose proof (no_vary_other _ _ "Origin" _ (exposedHeaders_touches options)) as N6.
  pose proof (terminal_no_vary "Origin" options) as N7.
  assert ("Origin" <> "") by differ.
  assert ("Origin" <> "Access-Control-Request-Headers") by differ.
  destruct (isPreflight req) eqn:Hp.
  - rewrite (actions_preflight options req Hp), !in_app_iff. tauto.
  - rewrite (actions_actual options req Hp), !in_app_iff. simpl.
    intuition discriminate.
Qed.

Lemma trace_originHeaders_wildcard options req :
  wildcard (get (origin options)) = true ->
  trace (originHeaders options req) = [SetHeader "Access-Control-Allow-Origin" "*"].
Proof.
  unfold originHeaders, wildcard.
  destruct (get (origin options)) as [[[b|s|r]|l]|]; try discriminate;
    cbn [truthy_origin truthy_item isString]; intros H; try rewrite H;
    try rewrite orb_false_r in *; try rewrite H; reflexivity.
Qed.

Lemma trace_originHeaders_fixed options req s :
  get (origin options) = Some (Single (OStr s)) ->
  s <> "" -> s <> "*" ->
  trace (originHeaders options req)
  = [Vary "Origin"; SetHeader "Access-Control-Allow-Origin" s].
Proof.
  intros Ho Hs Hstar. unfold originHeaders. rewrite Ho.
  cbn [truthy_origin truthy_item isString].
  destruct s as [|c s]; [congruence|]. cbn [nonempty negb orb].
  destruct (String.eqb_spec (String c s) "*"); [congruence | reflexivity].
Qed.

(** X3: when the origin policy is missing, [false], the empty string or
    the string [*], every request gets Access-Control-Allow-Origin: [*], and
    Origin is not added to Vary. *)
Theorem wildcard_origin options req :
  wildcard (get (origin options)) = true ->
  header_calls "Access-Control-Allow-Origin" (actions options req)
  = [SetHeader "Access-Control-Allow-Origin" "*"]
  /\ ~ In (Vary "Origin") (actions options req).
Proof.
  intros Hw. rewrite allow_origin_calls, vary_origin_iff.
  rewrite (trace_originHeaders_wildcard options req Hw). split; [reflexivity|].
  simpl. intuition discriminate.
Qed.

Lemma wildcard_origin_witness :
  header_calls "Access-Control-Allow-Origin"
    (actions (origin_only (Single (OBool false))) (GET {["origin" := "http://a.com"]}))
  = [SetHeader "Access-Control-Allow-Origin" "*"]
  /\ ~ In (Vary "Origin")
        (actions (origin_only (Single (OBool false)))
           (GET {["origin" := "http://a.com"]})).
Proof.
  exact (wildcard_origin (origin_only (Single (OBool false)))
           (GET {["origin" := "http://a.com"]}) eq_refl).
Defined.

(** X4: a string origin other than [*] and the empty string is sent as it
    is in Access-Control-Allow-Origin, with Origin added to Vary, on every
    request: it is not compared with the Origin header of the request, which
    may be another origin or missing. *)
Theorem fixed_origin_unconditional options req s :
  get (origin options) = Some (Single (OStr s)) ->
  s <> "" -> s <> "*" ->
  header_calls "Access-Control-Allow-Origin" (actions options req)
  = [SetHeader "Access-Control-Allow-Origin" s]
  /\ In (Vary "Origin") (actions options req).
Proof.
  intros Ho Hs Hstar. rewrite allow_origin_calls, vary_origin_iff.
  rewrite (trace_originHeaders_fixed options req s Ho Hs Hstar).
  split; [|now left].
  unfold header_calls. cbn [List.filter sets].
  now rewrite String.eqb_refl.
Qed.

Lemma fixed_origin_witness :
  header_calls "Access-Control-Allow-Origin"
    (actions (origin_only (Single (OStr "http://a.com")))
       (GET {["origin" := "http://evil.com"]}))
  = [SetHeader "Access-Control-Allow-Origin" "http://a.com"]
  /\ In (Vary "Origin")
        (actions (origin_only (Single (OStr "http://a.com")))
           (GET {["origin" := "http://evil.com"]})).
Proof.
  refine (fixed_origin_unconditional (origin_only (Single (OStr "http://a.com")))
            (GET {["origin" := "http://evil.com"]}) "http://a.com" eq_refl _ _);
    discriminate.
Defined.

(** X5: with [origin: true] the handler reflects whatever Origin the
    request carries, when it is not empty, and adds Origin to Vary; a request
    without an Origin header, or with an empty one, gets no
    Access-Control-Allow-Origin. *)
Theorem true_origin_reflects options req :
  get (origin options) = Some (Single (OBool true)) ->
  (forall o, Req.headers req !! "origin" = Some o -> o <> "" ->
     header_calls "Access-Control-Allow-Origin" (actions options req)
     = [SetHeader "Access-Control-Allow-Origin" o]
     /\ In (Vary "Origin") (actions options req))
  /\ (Req.headers req !! "origin" = None \/ Req.headers req !! "origin" = Some "" ->
      header_calls "Access-Control-Allow-Origin" (actions options req) = []
      /\ ~ In (Vary "Origin") (actions options req)).
Proof.
  intros Ho.
  assert (trace (originHeaders options req)
          = match truthy_string (Req.headers req !! "origin") with
            | Some o => [Vary "Origin"; SetHeader "Access-Control-Allow-Origin" o]
            | None => []
            end) as Ht.
  { unfold originHeaders. rewrite Ho.
    cbn [truthy_origin truthy_item isString negb orb isOriginAllowed allowed].
    destruct (truthy_string _); reflexivity. }
  split.
  - intros o Hreq Hne. rewrite allow_origin_calls, vary_origin_iff, Ht, Hreq.
    destruct o as [|c o]; [congruence|].
    cbn [truthy_string nonempty]. split; [|now left].
    unfold header_calls. cbn [List.filter sets]. now rewrite String.eqb_refl.
  - intros Hreq. rewrite allow_origin_calls, vary_origin_iff, Ht.
    destruct Hreq as [-> | ->]; simpl; intuition discriminate.
Qed.

Lemma true_origin_witness :
  header_calls "Access-Control-Allow-Origin"
    (actions (origin_only (Single (OBool true))) (GET {["origin" := "http://a.com"]}))
  = [SetHeader "Access-Control-Allow-Origin" "http://a.com"]
  /\ In (Vary "Origin")
        (actions (origin_only (Single (OBool true)))
           (GET {["origin" := "http://a.com"]})).
Proof.
  refine (proj1 (true_origin_reflects (origin_only (Single (OBool true)))
                   (GET {["origin" := "http://a.com"]}) eq_refl)
            "http://a.com" eq_refl _).
  discriminate.
Defined.

(** The calls of [originHeaders], policy by policy. *)
Lemma trace_originHeaders_cases options req :
  trace (originHeaders options req)
  = if wildcard (get (origin options))
    then [SetHeader "Access-Control-Allow-Origin" "*"]
    else match match get (origin options) with
               | Some (Single (OStr s)) => Some s
               | Some o =>
                   truthy_string (if isOriginAllowed (Req.headers req !! "origin") o
                                  then Req.headers req !! "origin" else None)
               | None => None
               end with
         | Some v => [Vary "Origin"; SetHeader "Access-Control-Allow-Origin" v]
         | None => []
         end.
Proof.
  unfold originHeaders, wildcard.
  destruct (get (origin options)) as [[[b|s|r]|l]|];
    cbn [truthy_origin truthy_item isString]; try reflexivity.
  - rewrite orb_false_r. destruct (negb b); [reflexivity|].
    destruct (truthy_string _); reflexivity.
  - destruct (negb (nonempty s) || String.eqb s "*"); reflexivity.
  - cbn [negb orb]. destruct (truthy_string _); reflexivity.
  - cbn [negb orb]. destruct (truthy_string _); reflexivity.
Qed.

(** X6: Origin is added to Vary exactly when Access-Control-Allow-Origin
    is set under a policy other than the wildcard ones: never for [*], never
    without the header, and always with a fixed or reflected origin. *)
Theorem vary_origin_accompanies options req :
  In (Vary "Origin") (actions options req)
  <-> wildcard (get (origin options)) = false
      /\ header_calls "Access-Control-Allow-Origin" (actions options req) <> [].
Proof.
  rewrite allow_origin_calls, vary_origin_iff, trace_originHeaders_cases.
  destruct (wildcard (get (origin options))).
  - simpl. intuition discriminate.
  - destruct (match get (origin options) with
              | Some (Single (OStr s)) => Some s
              | Some _ => _
              | None => None
              end) as [v|].
    + unfold header_calls. cbn [List.filter sets].
      rewrite String.eqb_refl. simpl. intuition discriminate.
    + simpl. intuition congruence.
Qed.

(** ** No header is set twice *)

Lemma header_calls_bound name field n calls :
  only_touches name field calls ->
  (length (header_calls name calls) <= 1)%nat ->
  (length (header_calls n calls) <= if String.eqb n name then 1 else 0)%nat.
Proof.
  intros Ht Hl. destruct (String.eqb_spec n name) as [->|Hn]; [assumption|].
  now rewrite (header_calls_other name field n calls Ht Hn).
Qed.

Ltac at_most_once :=
  repeat match goal with
         | |- context [trace (match ?x with _ => _ end)] => destruct x
         | |- context [trace (if ?x then _ else _)] => destruct x
         end;
  simpl; lia.

Lemma originHeaders_once options req :
  (length (header_calls "Access-Control-Allow-Origin"
             (trace (originHeaders options req))) <= 1)%nat.
Proof. unfold originHeaders. at_most_once. Qed.

Lemma credentialsHeaders_once options :
  (length (header_calls "Access-Control-Allow-Credentials"
             (trace (credentialsHeaders options))) <= 1)%nat.
Proof. unfold credentialsHeaders. at_most_once. Qed.

Lemma methodsHeaders_once options :
  (length (header_calls "Access-Control-Allow-Methods"
             (trace (methodsHeaders options))) <= 1)%nat.
Proof. unfold methodsHeaders. at_most_once. Qed.

Lemma allowedHeaders_once options req :
  (length (header_calls "Access-Control-Allow-Headers"
             (trace (allowedHeaders_ options req))) <= 1)%nat.
Proof. unfold allowedHeaders_. at_most_once. Qed.

Lemma cacheHeaders_once options :
  (length (header_calls "Access-Control-Max-Age"
             (trace (cacheHeaders options))) <= 1)%nat.
Proof. unfold cacheHeaders. at_most_once. Qed.

Lemma exposedHeaders_once options :
  (length (header_calls "Access-Control-Expose-Headers"
             (trace (exposedHeaders_ options))) <= 1)%nat.
Proof. unfold exposedHeaders_. at_most_once. Qed.

Lemma terminal_once n options :
  (length (header_calls n (terminal options))
   <= if String.eqb n "Content-Length" then 1 else 0)%nat.
Proof.
  unfold terminal, header_calls.
  destruct (match get (preflightContinue options) with Some b => b | None => false end);
    cbn [List.filter sets].
  - simpl. destruct (String.eqb n "Content-Length"); lia.
  - rewrite (String.eqb_sym "Content-Length" n).
    destruct (String.eqb n "Content-Length"); simpl; lia.
Qed.

Ltac which_header n :=
  repeat match goal with
         | H : context [String.eqb n ?c] |- _ =>
             destruct (String.eqb_spec n c); [subst n; simpl in *|]
         end.

(** X7: in the calls of the handler no header name is set more than once:
    a list of methods or headers goes out as one comma-joined value, never as
    several header instances, and nothing the handler sets is overwritten by
    a later part of it. *)
Theorem no_header_set_twice options req name :
  (length (header_calls name (actions options req)) <= 1)%nat.
Proof.
  pose proof (header_calls_bound _ _ name _ (originHeaders_touches options req)
                (originHeaders_once options req)) as B1.
  pose proof (header_calls_bound _ _ name _ (credentialsHeaders_touches options)
                (credentialsHeaders_once options)) as B2.
  pose proof (header_calls_bound _ _ name _ (methodsHeaders_touches options)
                (methodsHeaders_once options)) as B3.
  pose proof (header_calls_bound _ _ name _ (allowedHeaders_touches options req)
                (allowedHeaders_once options req)) as B4.
  pose proof (header_calls_bound _ _ name _ (cacheHeaders_touches options)
                (cacheHeaders_once options)) as B5.
  pose proof (header_calls_bound _ _ name _ (exposedHeaders_touches options)
                (exposedHeaders_once options)) as B6.
  pose proof (terminal_once name options) as B7.
  destruct (isPreflight req) eqn:Hp.
  - rewrite (actions_preflight options req Hp), !header_calls_app, !length_app.
    which_header name; lia.
  - rewrite (actions_actual options req Hp), !header_calls_app, !length_app.
    clear B7. simpl. which_header name; lia.
Qed.

(** ** What the handler reads of the request *)

(** X8: the handler looks at nothing of the request but its method and its
    Origin and Access-Control-Request-Headers headers: two requests that
    agree on these three get the same calls, whatever other headers they
    carry. *)
Theorem handler_reads_three_fields options (req1 req2 : IncomingMessage) :
  Req.method req1 = Req.method req2 ->
  Req.headers req1 !! "origin" = Req.headers req2 !! "origin" ->
  Req.headers req1 !! "access-control-request-headers"
  = Req.headers req2 !! "access-control-request-headers" ->
  actions options req1 = actions options req2.
Proof.
  intros Hm Ho Hh.
  unfold actions, corsHandler, isPreflight, originHeaders, allowedHeaders_.
  now rewrite Hm, Ho, Hh.
Qed.

Lemma handler_reads_witness :
  actions everything_configured
    (OPTIONS {["origin" := "http://b.com"]})
  = actions everything_configured
      (OPTIONS (<["cookie" := "session=1"]> {["origin" := "http://b.com"]})).
Proof.
  exact (handler_reads_three_fields everything_configured
           (OPTIONS {["origin" := "http://b.com"]})
           (OPTIONS (<["cookie" := "session=1"]> {["origin" := "http://b.com"]}))
           eq_refl eq_refl eq_refl).
Defined.

Lemma upper_idempotent c : upper (upper c) = upper c.
Proof. destruct c as [[] [] [] [] [] [] [] []]; reflexivity. Qed.

Lemma toUpperCase_idempotent s : toUpperCase (toUpperCase s) = toUpperCase s.
Proof.
  induction s as [|c s IH]; [reflexivity|].
  simpl. now rewrite upper_idempotent, IH.
Qed.

Lemma isPreflight_upper req method :
  isPreflight (with_method req (Some (toUpperCase method)))
  = isPreflight (with_method req (Some method)).
Proof.
  unfold isPreflight, with_method. cbn [Req.method truthy_string].
  assert (nonempty (toUpperCase method) = nonempty method) as ->
    by (destruct method; reflexivity).
  destruct (nonempty method); [|reflexivity].
  now rewrite toUpperCase_idempotent.
Qed.

(** X9: the letter case of the request method does not matter to the
    handler: a request gets the same calls as the request with its method in
    upper case. *)
Theorem method_case_insensitive options req method :
  actions options (with_method req (Some method))
  = actions options (with_method req (Some (toUpperCase method))).
Proof.
  unfold actions, corsHandler. rewrite isPreflight_upper. reflexivity.
Qed.

(** ** Lists of origins *)

Lemma existsb_Permutation {A} (f : A -> bool) l l' :
  Permutation l l' -> existsb f l = existsb f l'.
Proof.
  induction 1 as [|x l l' _ IH|x y l|l l' l'' _ IH1 _ IH2]; simpl.
  - reflexivity.
  - now rewrite IH.
  - destruct (f x), (f y); reflexivity.
  - now rewrite IH1.
Qed.

Lemma reflected_Permutation (requestOrigin : option string) l l' :
  Permutation l l' ->
  truthy_string (if isOriginAllowed requestOrigin (Array l) then requestOrigin else None)
  = truthy_string (if isOriginAllowed requestOrigin (Array l') then requestOrigin else None).
Proof.
  intros Hp. destruct requestOrigin as [o|].
  - destruct (nonempty o) eqn:Hne.
    + rewrite !(isOriginAllowed_any_match o _ Hne). simpl.
      now rewrite (existsb_Permutation _ _ _ Hp).
    + destruct o; [|discriminate].
      destruct (isOriginAllowed _ (Array l)), (isOriginAllowed _ (Array l')); reflexivity.
  - destruct (isOriginAllowed _ (Array l)), (isOriginAllowed _ (Array l')); reflexivity.
Qed.

(** X10: the order of the entries of an origin list does not matter: two
    lists with the same entries give the same calls on every request (also
    on requests whose Origin is empty or missing, where [find] may stop at
    different entries). *)
Theorem origin_list_order (options : ResolvedOptions) req l l' :
  Permutation l l' ->
  actions (with_origin options (Array l)) req
  = actions (with_origin options (Array l')) req.
Proof.
  intros Hp. unfold actions, corsHandler, originHeaders.
  cbn [get origin with_origin truthy_origin isString negb orb].
  rewrite (reflected_Permutation (Req.headers req !! "origin") l l' Hp).
  reflexivity.
Qed.

Lemma origin_list_order_witness :
  actions (with_origin everything_configured (Array [OStr "http://a.com"; ORegExp b_com]))
          (GET {["origin" := "http://x.b.com"]})
  = actions (with_origin everything_configured (Array [ORegExp b_com; OStr "http://a.com"]))
            (GET {["origin" := "http://x.b.com"]}).
Proof.
  exact (origin_list_order everything_configured (GET {["origin" := "http://x.b.com"]})
           [OStr "http://a.com"; ORegExp b_com] [ORegExp b_com; OStr "http://a.com"]
           (perm_swap _ _ _)).
Defined.

(** ** The methods and exposed-headers rules *)

Lemma allow_methods_calls options req :
  isPreflight req = true ->
  header_calls "Access-Control-Allow-Methods" (actions options req)
  = trace (methodsHeaders options).
Proof.
  intros Hp. rewrite (actions_preflight _ _ Hp), !header_calls_app.
  rewrite (header_calls_other _ _ _ _ (originHeaders_touches options req)) by differ.
  rewrite (header_calls_other _ _ _ _ (credentialsHeaders_touches options)) by differ.
  rewrite (header_calls_other _ _ _ _ (allowedHeaders_touches options req)) by differ.
  rewrite (header_calls_other _ _ _ _ (cacheHeaders_touches options)) by differ.
  rewrite (header_calls_other _ _ _ _ (exposedHeaders_touches options)) by differ.
  rewrite terminal_sets by differ. simpl. rewrite app_nil_r.
  unfold methodsHeaders. destruct (truthy_string _); reflexivity.
Qed.

Lemma expose_headers_calls options req :
  header_calls "Access-Control-Expose-Headers" (actions options req)
  = trace (exposedHeaders_ options).
Proof.
  assert (header_calls "Access-Control-Expose-Headers" (trace (exposedHeaders_ options))
          = trace (exposedHeaders_ options)) as He.
  { unfold exposedHeaders_. destruct (truthy_headers _); [|reflexivity].
    destruct (nonempty _); reflexivity. }
  destruct (isPreflight req) eqn:Hp.
  - rewrite (actions_preflight _ _ Hp), !header_calls_app.
    rewrite (header_calls_other _ _ _ _ (originHeaders_touches options req)) by differ.
    rewrite (header_calls_other _ _ _ _ (credentialsHeaders_touches options)) by differ.
    rewrite (header_calls_other _ _ _ _ (methodsHeaders_touches options)) by differ.
    rewrite (header_calls_other _ _ _ _ (allowedHeaders_touches options req)) by differ.
    rewrite (header_calls_other _ _ _ _ (cacheHeaders_touches options)) by differ.
    rewrite terminal_sets by differ. simpl. now rewrite app_nil_r.
  - rewrite (actions_actual _ _ Hp), !header_calls_app.
    rewrite (header_calls_other _ _ _ _ (originHeaders_touches options req)) by differ.
    rewrite (header_calls_other _ _ _ _ (credentialsHeaders_touches options)) by differ.
    simpl. now rewrite app_nil_r.
Qed.

(** X11: on a preflight an array of methods is joined with commas into one
    Access-Control-Allow-Methods value and a non-empty string is sent as it
    is; no header is set when [methods] is missing, an empty string, or an
    array that joins to the empty string. *)
Theorem methods_header options req :
  isPreflight req = true ->
  (forall l, get (methods options) = Some (Arr l) ->
     header_calls "Access-Control-Allow-Methods" (actions options req)
     = if nonempty (join "," l)
       then [SetHeader "Access-Control-Allow-Methods" (join "," l)] else [])
  /\ (forall s, get (methods options) = Some (Str s) -> s <> "" ->
     header_calls "Access-Control-Allow-Methods" (actions options req)
     = [SetHeader "Access-Control-Allow-Methods" s])
  /\ (get (methods options) = None \/ get (methods options) = Some (Str "") ->
     header_calls "Access-Control-Allow-Methods" (actions options req) = []).
Proof.
  intros Hp. rewrite (allow_methods_calls options req Hp). unfold methodsHeaders.
  repeat split.
  - intros l ->. simpl. destruct (nonempty (join "," l)); reflexivity.
  - intros s -> Hs. destruct s; [congruence | reflexivity].
  - intros [-> | ->]; reflexivity.
Qed.

Lemma methods_header_witness :
  header_calls "Access-Control-Allow-Methods"
    (actions everything_configured (OPTIONS ∅))
  = [SetHeader "Access-Control-Allow-Methods" "GET,POST"].
Proof.
  exact (proj1 (methods_header everything_configured (OPTIONS ∅) eq_refl)
           ["GET"; "POST"] eq_refl).
Defined.

(** X12: Access-Control-Expose-Headers is set on preflights and on actual
    requests alike: an array is joined with commas, a non-empty string is
    sent as it is, and nothing is set when [exposedHeaders] is missing, an
    empty string or an array that joins to the empty string. *)
Theorem exposed_headers_header options req :
  (forall l, get (exposedHeaders options) = Some (Arr l) ->
     header_calls "Access-Control-Expose-Headers" (actions options req)
     = if nonempty (join "," l)
       then [SetHeader "Access-Control-Expose-Headers" (join "," l)] else [])
  /\ (forall s, get (exposedHeaders options) = Some (Str s) -> s <> "" ->
     header_calls "Access-Control-Expose-Headers" (actions options req)
     = [SetHeader "Access-Control-Expose-Headers" s])
  /\ (get (exposedHeaders options) = None \/ get (exposedHeaders options) = Some (Str "") ->
     header_calls "Access-Control-Expose-Headers" (actions options req) = []).
Proof.
  rewrite (expose_headers_calls options req). unfold exposedHeaders_.
  repeat split.
  - intros l ->. simpl. destruct (nonempty (join "," l)); reflexivity.
  - intros s -> Hs. destruct s; [congruence | reflexivity].
  - intros [-> | ->]; reflexivity.
Qed.

(** X13: a property the caller writes with the value [undefined] takes the
    place of the default: with [methods: undefined] a short-circuited
    preflight gets no Access-Control-Allow-Methods and with
    [optionsSuccessStatus: undefined] its status code is assigned
    [undefined], while a caller who leaves the properties out gets the
    default method list and 204. *)
Theorem explicit_undefined_replaces_default (supplied : Options) (policy : Origin) req :
  isPreflight req = true ->
  get (preflightContinue (spread defaults supplied)) <> Some true ->
  (own (methods supplied) = false ->
     header_calls "Access-Control-Allow-Methods"
       (actions (with_origin (spread defaults supplied) policy) req)
     = [SetHeader "Access-Control-Allow-Methods" "GET,HEAD,PUT,PATCH,POST,DELETE"])
  /\ (methods supplied = Undefined ->
     header_calls "Access-Control-Allow-Methods"
       (actions (with_origin (spread defaults supplied) policy) req) = [])
  /\ (own (optionsSuccessStatus supplied) = false ->
      In (StatusCode (Some 204))
        (actions (with_origin (spread defaults supplied) policy) req))
  /\ (optionsSuccessStatus supplied = Undefined ->
      In (StatusCode None)
        (actions (with_origin (spread defaults supplied) policy) req)).
Proof.
  intros Hp Hc. rewrite (allow_methods_calls _ req Hp).
  rewrite (actions_preflight _ req Hp). unfold methodsHeaders, terminal.
  assert (match get (preflightContinue (with_origin (spread defaults supplied) policy)) with
          | Some b => b
          | None => false
          end = false) as ->.
  { change (get (preflightContinue (with_origin (spread defaults supplied) policy)))
      with (get (preflightContinue (spread defaults supplied))).
    destruct (get (preflightContinue (spread defaults supplied))) as [[]|]; congruence. }
  cbn [with_origin spread methods optionsSuccessStatus defaults layer].
  repeat split.
  - destruct (methods supplied); [reflexivity | discriminate | discriminate].
  - intros ->. reflexivity.
  - intros Hown. rewrite !in_app_iff.
    destruct (optionsSuccessStatus supplied); try discriminate.
    simpl. tauto.
  - intros ->. rewrite !in_app_iff. simpl. tauto.
Qed.

Lemma explicit_undefined_witness :
  header_calls "Access-Control-Allow-Methods"
    (actions (with_origin
                (spread defaults
                   (mkOptions Absent Undefined Absent Absent Absent Absent Absent Absent
                      Undefined))
                (Single (OStr "*")))
       (OPTIONS ∅)) = []
  /\ In (StatusCode None)
       (actions (with_origin
                   (spread defaults
                      (mkOptions Absent Undefined Absent Absent Absent Absent Absent Absent
                         Undefined))
                   (Single (OStr "*")))
          (OPTIONS ∅)).
Proof.
  destruct (explicit_undefined_replaces_default
              (mkOptions Absent Undefined Absent Absent Absent Absent Absent Absent Undefined)
              (Single (OStr "*")) (OPTIONS ∅) eq_refl)
    as (_ & Hm & _ & Hs); [discriminate|].
  split; [apply Hm | apply Hs]; reflexivity.
Defined.

(** * Further properties of the middleware *)

(** ** The middleware under any continuation *)

Lemma through_app next a b : through next (a ++ b) = through next a ++ through next b.
Proof. apply flat_map_app. Qed.

Lemma through_header_calls next calls :
  Forall (fun e => is_header_call e = true) calls -> through next calls = calls.
Proof.
  induction 1 as [|e calls He _ IH]; [reflexivity|].
  unfold through in *. simpl. rewrite IH.
  destruct e; try discriminate He; reflexivity.
Qed.

Lemma through_host_next calls : through host_next calls = calls.
Proof.
  induction calls as [|e calls IH]; [reflexivity|].
  unfold through in *. simpl. rewrite IH. destruct e; reflexivity.
Qed.

Section any_continuation.

Variable next : Value -> M unit.
Hypothesis next_logs : forall err, logs_only (next err).

Lemma corsHandler_logs_any options req : logs_only (corsHandler options req next).
Proof.
  unfold corsHandler, set_statusCode, setHeader, end_.
  destruct (isPreflight req).
  - destruct (match get (preflightContinue options) with Some b => b | None => false end);
      repeat (apply logs_only_seq; auto with cors); logs.
  - repeat (apply logs_only_seq; auto with cors).
Qed.

Lemma trace_corsHandler_any options req :
  trace (corsHandler options req next) = through next (actions options req).
Proof.
  pose proof (originHeaders_touches options req) as T1.
  pose proof (credentialsHeaders_touches options) as T2.
  pose proof (methodsHeaders_touches options) as T3.
  pose proof (allowedHeaders_touches options req) as T4.
  pose proof (cacheHeaders_touches options) as T5.
  pose proof (exposedHeaders_touches options) as T6.
  destruct (isPreflight req) eqn:Hp.
  - rewrite (actions_preflight options req Hp), !through_app.
    rewrite !through_header_calls by eauto using only_touches_header_calls.
    unfold corsHandler, terminal. rewrite Hp.
    destruct (match get (preflightContinue options) with Some b => b | None => false end).
    + rewrite !trace_seq by auto 10 with cors.
      unfold through. simpl. now rewrite app_nil_r.
    + rewrite !trace_seq
        by (unfold set_statusCode, setHeader, end_; auto 10 with cors).
      reflexivity.
  - rewrite (actions_actual options req Hp), !through_app.
    rewrite !through_header_calls by eauto using only_touches_header_calls.
    unfold corsHandler. rewrite Hp.
    rewrite !trace_seq by auto 10 with cors.
    unfold through. simpl. now rewrite app_nil_r.
Qed.

Lemma corsMdlwrOrigin_any req w (l : loc) merged err origin :
  heap w !! l = Some merged ->
  exists more,
    corsMdlwrOrigin req next l err origin w
    = (tt,
       mkWorld (heap w ++ more)
         (log w ++ through next (origin_calls merged req err origin)),
       fun w' => w').
Proof.
  intros Hl. unfold corsMdlwrOrigin, origin_calls.
  assert (through next [Next err] = trace (next err)) as Hone
    by (unfold through; simpl; now rewrite app_nil_r).
  destruct origin as [og|].
  - destruct (truthy err || negb (truthy_origin og)).
    + exists []. rewrite Hone, next_logs. simpl. now rewrite app_nil_r.
    + exists [with_origin merged (Fixed og)].
      unfold bind, alloc. rewrite (load_spec w l merged Hl). simpl.
      rewrite corsHandler_logs_any. simpl. now rewrite trace_corsHandler_any.
  - exists []. rewrite Hone, next_logs. simpl. now rewrite app_nil_r.
Qed.

Lemma corsMdlwrOptions_any req w err (l : loc) supplied :
  heap w !! defaults_ref = Some defaults ->
  (truthy err = false -> heap w !! l = Some supplied) ->
  log (run (corsMdlwrOptions req next err l) w)
  = log w ++ through next (options_calls req err supplied).
Proof.
  intros Hd Hs. unfold corsMdlwrOptions, options_calls.
  assert (forall v, through next [Next v] = trace (next v)) as Hone
    by (intros; unfold through; simpl; now rewrite app_nil_r).
  destruct (truthy err); [now rewrite Hone, run_logs_only|].
  specialize (Hs eq_refl).
  rewrite (run_bind_now _ _ _ _ _ (merge_spec w l defaults supplied Hd Hs)).
  set (merged := spread defaults supplied).
  set (w1 := mkWorld (heap w ++ [merged]) (log w)).
  assert (heap w1 !! length (heap w) = Some merged) as Hnew
    by (simpl; rewrite lookup_app_r by lia; now rewrite Nat.sub_diag).
  rewrite (run_bind_now (load (length (heap w))) _ _ merged w1)
    by (now apply load_spec).
  cbv zeta.
  destruct (get (origin merged)) as [[og|f]|]; cbn [truthy_setting].
  - destruct (truthy_origin og).
    + destruct (corsMdlwrOrigin_any req w1 (length (heap w)) merged VNull (Some og) Hnew)
        as [more Hrun].
      rewrite (run_bind_now _ _ _ _ _ Hrun), run_logs_only by apply next_logs.
      simpl. now rewrite through_app, Hone, app_assoc.
    + rewrite (run_bind_now (ret tt) _ w1 tt w1) by reflexivity.
      now rewrite Hone, run_logs_only.
  - unfold call. destruct (timing (f (Req.headers req !! "origin"))).
    + destruct (corsMdlwrOrigin_any req w1 (length (heap w)) merged
                  (error (f (Req.headers req !! "origin")))
                  (result (f (Req.headers req !! "origin"))) Hnew) as [more Hrun].
      rewrite (run_bind_now _ _ _ _ _ Hrun), run_logs_only by apply next_logs.
      simpl. now rewrite through_app, Hone, app_assoc.
    + rewrite run_later_seq, (run_logs_only (next VUndefined)) by apply next_logs.
      destruct (corsMdlwrOrigin_any req
                  (mkWorld (heap w1) (log w1 ++ trace (next VUndefined)))
                  (length (heap w)) merged
                  (error (f (Req.headers req !! "origin")))
                  (result (f (Req.headers req !! "origin"))) Hnew) as [more Hrun].
      unfold run. rewrite Hrun. cbn [log heap w1].
      change (through next (Next VUndefined :: ?l))
        with (trace (next VUndefined) ++ through next l).
      now rewrite app_assoc.
  - rewrite (run_bind_now (ret tt) _ w1 tt w1) by reflexivity.
    now rewrite Hone, run_logs_only.
Qed.

Lemma corsMiddleware_any corsOpts req w supplied :
  heap w !! defaults_ref = Some defaults ->
  (truthy (error (resolved corsOpts req)) = false ->
   heap w !! result (resolved corsOpts req) = Some supplied) ->
  log (run (corsMiddleware corsOpts req next) w)
  = log w ++ through next (options_calls req (error (resolved corsOpts req)) supplied).
Proof.
  intros Hd Hs.
  assert (run (corsMiddleware corsOpts req next) w
          = run (corsMdlwrOptions req next (error (resolved corsOpts req))
                   (result (resolved corsOpts req))) w) as ->
    by (destruct corsOpts; [reflexivity | apply run_call]).
  now apply corsMdlwrOptions_any.
Qed.

End any_continuation.

(** ** The branches that skip the handler *)

(** X14: when the options callback yields an error, at once or from a later
    turn, the middleware does nothing but call the continuation once with
    that error: no header is set, the defaults are not even merged (the heap
    is as it was), and the promise of the promise adapter is rejected with
    the error. *)
Theorem options_error_only_propagates f req w :
  truthy (error (f req)) = true ->
  run (corsMiddleware (Function f) req host_next) w
  = mkWorld (heap w) (log w ++ [Next (error (f req))])
  /\ promise (log (run (asyncHandlerFactory (Function f) req) (mkWorld (heap w) [])))
     = Rejected (error (f req)).
Proof.
  intros He. unfold asyncHandlerFactory, expressMiddlewareFactory, corsMiddleware.
  rewrite !run_call. unfold corsMdlwrOptions, settle. rewrite He.
  split; reflexivity.
Qed.

Lemma options_error_witness :
  run (corsMiddleware
         (Function (fun _ => mkCompletion Async (VError "no options") caller_options))
         (OPTIONS ∅) host_next) boot
  = mkWorld (heap boot) (log boot ++ [Next (VError "no options")])
  /\ promise (log (run (asyncHandlerFactory
                          (Function (fun _ => mkCompletion Async (VError "no options")
                                                caller_options))
                          (OPTIONS ∅)) (mkWorld (heap boot) [])))
     = Rejected (VError "no options").
Proof.
  exact (options_error_only_propagates
           (fun _ => mkCompletion Async (VError "no options") caller_options)
           (OPTIONS ∅) boot eq_refl).
Defined.

(** X15: an [origin] that the caller sets to [false], to the empty string
    or to [undefined] switches the middleware off: every request, preflights
    included, only has the continuation called once, without an error; no
    header is set and the response is not ended.  (Leaving [origin] out
    instead gives the default [*].) *)
Theorem origin_switched_off req w l supplied :
  heap w !! defaults_ref = Some defaults ->
  heap w !! l = Some supplied ->
  origin supplied = Undefined
  \/ origin supplied = Present (Fixed (Single (OBool false)))
  \/ origin supplied = Present (Fixed (Single (OStr ""))) ->
  log (run (corsMiddleware (Object l) req host_next) w) = log w ++ [Next VUndefined]
  /\ get (origin (spread defaults no_options)) = Some (Fixed (Single (OStr "*"))).
Proof.
  intros Hd Hs Hoff. split; [|reflexivity].
  apply origin_off_next_once with (o := supplied); try assumption.
  unfold spread. cbn [origin].
  destruct Hoff as [-> | [-> | ->]]; reflexivity.
Qed.

Lemma origin_switched_off_witness :
  log (run (corsMiddleware (Object caller_options)
              (OPTIONS {["origin" := "http://a.com"]}) host_next)
         (world_with (mkOptions Undefined Absent Absent Absent Absent Absent Absent
                        Absent Absent)))
  = [] ++ [Next VUndefined].
Proof.
  exact (proj1 (origin_switched_off (OPTIONS {["origin" := "http://a.com"]})
                  (world_with (mkOptions Undefined Absent Absent Absent Absent Absent
                                 Absent Absent Absent))
                  caller_options
                  (mkOptions Undefined Absent Absent Absent Absent Absent Absent Absent
                     Absent)
                  eq_refl eq_refl (or_introl eq_refl))).
Defined.

(** ** How often, and when, the continuation is called *)

Lemma next_calls_of_headers calls :
  Forall (fun e => is_header_call e = true) calls -> List.filter is_next calls = [].
Proof.
  induction 1 as [|e calls He _ IH]; [reflexivity|].
  simpl. rewrite IH. destruct e; try discriminate He; reflexivity.
Qed.

Lemma next_calls_of_actions options req :
  List.filter is_next (actions options req)
  = if short_circuits options req then [] else [Next VUndefined].
Proof.
  destruct (actions_shape options req) as (hs & Hhs & _ & ->).
  rewrite List.filter_app, (next_calls_of_headers hs Hhs).
  destruct (short_circuits options req); reflexivity.
Qed.

Lemma next_calls_of_origin_calls merged req err origin :
  length (List.filter is_next (origin_calls merged req err origin))
  = match origin with
    | Some og =>
        if truthy err || negb (truthy_origin og) then 1%nat
        else if short_circuits (with_origin merged og) req then 0%nat else 1%nat
    | None => 1%nat
    end.
Proof.
  unfold origin_calls. destruct origin as [og|]; [|reflexivity].
  destruct (truthy err || negb (truthy_origin og)); [reflexivity|].
  rewrite next_calls_of_actions.
  destruct (short_circuits _ req); reflexivity.
Qed.

(** X16: in a run of the callback-style middleware in which every callback
    that is invoked calls its completion function exactly once (the
    callbacks of [Completion]; with fixed options and a fixed origin no
    callback is invoked), the continuation is called once or twice.  It is
    called once when the options callback fails, when [origin] is switched
    off, and when the handler is reached and ends a preflight itself; on
    every other such path (an actual request, a continued preflight, an
    origin callback that fails or denies) it is called twice. *)
Theorem continuation_call_count corsOpts req w supplied :
  heap w !! defaults_ref = Some defaults ->
  (truthy (error (resolved corsOpts req)) = false ->
   heap w !! result (resolved corsOpts req) = Some supplied) ->
  exists calls,
    log (run (corsMiddleware corsOpts req host_next) w) = log w ++ calls
    /\ (1 <= length (List.filter is_next calls) <= 2)%nat
    /\ length (List.filter is_next calls)
       = if truthy (error (resolved corsOpts req)) then 1%nat
         else if origin_on (spread defaults supplied) then
           match accepted (spread defaults supplied) req with
           | Some og =>
               if short_circuits (with_origin (spread defaults supplied) og) req
               then 1%nat else 2%nat
           | None => 2%nat
           end
         else 1%nat.
Proof.
  intros Hd Hs.
  exists (options_calls req (error (resolved corsOpts req)) supplied).
  split.
  - rewrite (corsMiddleware_any host_next (fun e => logs_only_emit (Next e))
               corsOpts req w supplied Hd Hs).
    now rewrite through_host_next.
  - assert (length (List.filter is_next
                      (options_calls req (error (resolved corsOpts req)) supplied))
            = if truthy (error (resolved corsOpts req)) then 1%nat
              else if origin_on (spread defaults supplied) then
                match accepted (spread defaults supplied) req with
                | Some og =>
                    if short_circuits (with_origin (spread defaults supplied) og) req
                    then 1%nat else 2%nat
                | None => 2%nat
                end
              else 1%nat) as Hcount; cycle 1.
    { split; [|exact Hcount]. rewrite Hcount.
      destruct (truthy _); [lia|]. destruct (origin_on _); [|lia].
      destruct (accepted _ req); [|lia]. destruct (short_circuits _ req); lia. }
    unfold options_calls, origin_on, accepted.
    destruct (truthy (error (resolved corsOpts req))); [reflexivity|].
    cbv zeta.
    destruct (get (origin (spread defaults supplied))) as [[og|f]|];
      cbn [truthy_setting]; [| |reflexivity].
    + destruct (truthy_origin og) eqn:Hog; [|reflexivity].
      rewrite List.filter_app, length_app, next_calls_of_origin_calls.
      cbn [truthy orb]. rewrite Hog. simpl.
      destruct (short_circuits _ req); reflexivity.
    + assert (length (List.filter is_next
                        (origin_calls (spread defaults supplied) req
                           (error (f (Req.headers req !! "origin")))
                           (result (f (Req.headers req !! "origin")))))
              = if truthy (error (f (Req.headers req !! "origin")))
                   || denies (result (f (Req.headers req !! "origin")))
                then 1%nat
                else match result (f (Req.headers req !! "origin")) with
                     | Some og =>
                         if short_circuits (with_origin (spread defaults supplied) og) req
                         then 0%nat else 1%nat
                     | None => 1%nat
                     end) as Hn.
      { rewrite next_calls_of_origin_calls. unfold denies.
        destruct (result (f (Req.headers req !! "origin"))) as [og|].
        - destruct (truthy _ || negb (truthy_origin og)); reflexivity.
        - now rewrite orb_true_r. }
      destruct (timing (f (Req.headers req !! "origin")));
        [rewrite List.filter_app, length_app | cbn [List.filter is_next length]];
        rewrite Hn;
        destruct (truthy _ || denies _); try reflexivity;
        destruct (result (f (Req.headers req !! "origin"))) as [og|]; try reflexivity;
        destruct (short_circuits _ req); reflexivity.
Qed.

Lemma continuation_call_count_witness :
  exists calls,
    log (run (corsMiddleware (Object caller_options) (GET ∅) host_next)
           (world_with no_options)) = [] ++ calls
    /\ (1 <= length (List.filter is_next calls) <= 2)%nat
    /\ length (List.filter is_next calls) = 2%nat.
Proof.
  exact (continuation_call_count (Object caller_options) (GET ∅)
           (world_with no_options) no_options eq_refl (fun _ => eq_refl)).
Defined.

(** X17: when the origin callback answers from a later turn, the
    continuation has already been called when the answer is handled: the
    calls of the run start with [next()], and the headers of the handler (or
    the callback's error) come after it. *)
Theorem deferred_origin_continues_first corsOpts req w supplied f :
  heap w !! defaults_ref = Some defaults ->
  truthy (error (resolved corsOpts req)) = false ->
  heap w !! result (resolved corsOpts req) = Some supplied ->
  origin supplied = Present (Callback f) ->
  timing (f (Req.headers req !! "origin")) = Async ->
  log (run (corsMiddleware corsOpts req host_next) w)
  = log w ++ Next VUndefined
             :: origin_calls (spread defaults supplied) req
                  (error (f (Req.headers req !! "origin")))
                  (result (f (Req.headers req !! "origin")))
  /\ (forall og,
        truthy (error (f (Req.headers req !! "origin"))) = false ->
        result (f (Req.headers req !! "origin")) = Some og ->
        truthy_origin og = true ->
        log (run (corsMiddleware corsOpts req host_next) w)
        = log w ++ Next VUndefined
                   :: actions (with_origin (spread defaults supplied) og) req).
Proof.
  intros Hd He Hs Hf Ht.
  assert (log (run (corsMiddleware corsOpts req host_next) w)
          = log w ++ Next VUndefined
                     :: origin_calls (spread defaults supplied) req
                          (error (f (Req.headers req !! "origin")))
                          (result (f (Req.headers req !! "origin")))) as Hlog.
  { rewrite (corsMiddleware_any host_next (fun e => logs_only_emit (Next e))
               corsOpts req w supplied Hd (fun _ => Hs)).
    rewrite through_host_next. unfold options_calls. rewrite He. cbv zeta.
    assert (get (origin (spread defaults supplied)) = Some (Callback f)) as ->
      by (unfold spread; cbn [origin]; now rewrite Hf).
    now rewrite Ht. }
  split; [exact Hlog|].
  intros og Herr Hres Hog. rewrite Hlog. unfold origin_calls.
  now rewrite Hres, Herr, Hog.
Qed.

Lemma deferred_origin_witness :
  log (run (corsMiddleware (Object caller_options)
              (GET {["origin" := "http://a.com"]}) host_next)
         (world_with (callback_options slow_callback)))
  = [] ++ Next VUndefined
          :: actions (with_origin (spread defaults (callback_options slow_callback))
                        (Single (OBool true)))
               (GET {["origin" := "http://a.com"]}).
Proof.
  exact (proj2 (deferred_origin_continues_first (Object caller_options)
                  (GET {["origin" := "http://a.com"]})
                  (world_with (callback_options slow_callback))
                  (callback_options slow_callback) slow_callback
                  eq_refl eq_refl eq_refl eq_refl eq_refl)
           (Single (OBool true)) eq_refl eq_refl eq_refl).
Defined.

(** X18: an origin callback that answers at once, without an error and
    with a truthy origin, acts like that origin written into the options: the
    run makes the same calls as the run under the options in which [origin]
    is the answer. *)
Theorem sync_callback_like_fixed req w l l' supplied f og :
  heap w !! defaults_ref = Some defaults ->
  heap w !! l = Some supplied ->
  heap w !! l' = Some (with_origin supplied (Fixed og)) ->
  origin supplied = Present (Callback f) ->
  f (Req.headers req !! "origin") = mkCompletion Sync VNull (Some og) ->
  truthy_origin og = true ->
  log (run (corsMiddleware (Object l) req host_next) w)
  = log (run (corsMiddleware (Object l') req host_next) w).
Proof.
  intros Hd Hs Hs' Hf Hc Hog.
  rewrite (corsMiddleware_any host_next (fun e => logs_only_emit (Next e))
             (Object l) req w supplied Hd (fun _ => Hs)).
  rewrite (corsMiddleware_any host_next (fun e => logs_only_emit (Next e))
             (Object l') req w (with_origin supplied (Fixed og)) Hd (fun _ => Hs')).
  f_equal. f_equal. unfold options_calls. cbn [resolved error truthy]. cbv zeta.
  assert (get (origin (spread defaults supplied)) = Some (Callback f)) as ->
    by (unfold spread; cbn [origin]; now rewrite Hf).
  rewrite Hc. cbn [timing error result spread with_origin origin layer get].
  rewrite Hog. unfold origin_calls. cbn [truthy orb]. rewrite Hog.
  reflexivity.
Qed.

Lemma sync_callback_witness :
  log (run (corsMiddleware (Object 1%nat) (OPTIONS {["origin" := "http://b.com"]})
              host_next)
         (world_with_two (callback_options quick_callback)
            (fixed_options (Single (OStr "http://a.com")))))
  = log (run (corsMiddleware (Object 2%nat) (OPTIONS {["origin" := "http://b.com"]})
                host_next)
           (world_with_two (callback_options quick_callback)
              (fixed_options (Single (OStr "http://a.com"))))).
Proof.
  exact (sync_callback_like_fixed (OPTIONS {["origin" := "http://b.com"]})
           (world_with_two (callback_options quick_callback)
              (fixed_options (Single (OStr "http://a.com"))))
           1%nat 2%nat (callback_options quick_callback) quick_callback
           (Single (OStr "http://a.com")) eq_refl eq_refl eq_refl eq_refl eq_refl eq_refl).
Defined.

(** ** The promise adapter *)

Lemma promise_through_settle calls :
  Forall (fun e => host_call e = true) calls ->
  promise (through settle calls)
  = match first_next calls with
    | Some err => if truthy err then Rejected err else Fulfilled
    | None => Pending
    end.
Proof.
  induction 1 as [|e calls He _ IH]; [reflexivity|].
  change (through settle (e :: calls))
    with (match e with Next err => trace (settle err) | _ => [e] end
          ++ through settle calls).
  destruct e; try discriminate He; try exact IH.
  unfold settle. simpl. destruct (truthy err); reflexivity.
Qed.

Lemma host_calls_of_actions options req :
  Forall (fun e => host_call e = true) (actions options req).
Proof.
  destruct (actions_shape options req) as (hs & Hhs & _ & ->).
  apply Forall_app. split.
  - revert Hhs. apply List.Forall_impl. intros []; try discriminate; reflexivity.
  - destruct (short_circuits options req); repeat constructor.
Qed.

Lemma host_calls_of_options_calls req err supplied :
  Forall (fun e => host_call e = true) (options_calls req err supplied).
Proof.
  assert (forall merged e o,
            Forall (fun e => host_call e = true) (origin_calls merged req e o)) as Ho.
  { intros merged e o. unfold origin_calls. destruct o as [og|].
    - destruct (_ || _); [repeat constructor | apply host_calls_of_actions].
    - repeat constructor. }
  unfold options_calls. destruct (truthy err); [repeat constructor|].
  cbv zeta. destruct (get (origin (spread defaults supplied))) as [[og|f]|].
  - destruct (truthy_origin og); [|repeat constructor].
    apply Forall_app. split; [apply Ho | repeat constructor].
  - destruct (timing _).
    + apply Forall_app. split; [apply Ho | repeat constructor].
    + constructor; [reflexivity | apply Ho].
  - repeat constructor.
Qed.

Lemma first_next_headers hs rest :
  Forall (fun e => is_header_call e = true) hs ->
  first_next (hs ++ rest) = first_next rest.
Proof.
  induction 1 as [|e hs He _ IH]; [reflexivity|].
  simpl. destruct e; try discriminate He; exact IH.
Qed.

Lemma first_next_actions_then options req :
  first_next (actions options req ++ [Next VUndefined]) = Some VUndefined.
Proof.
  destruct (actions_shape options req) as (hs & Hhs & _ & ->).
  rewrite <- app_assoc, (first_next_headers hs _ Hhs).
  destruct (short_circuits options req); reflexivity.
Qed.

(** X19: in a run of the promise adapter in which every callback that is
    invoked calls its completion function exactly once (the callbacks of
    [Completion]), the promise is settled by the first call of the
    continuation.  It is rejected when the options callback yields an error,
    and when an origin callback that answers at once yields one; in every
    other such run it is fulfilled, also when an origin callback yields its
    error from a later turn. *)
Theorem promise_settlement corsOpts req w supplied :
  log w = [] ->
  heap w !! defaults_ref = Some defaults ->
  (truthy (error (resolved corsOpts req)) = false ->
   heap w !! result (resolved corsOpts req) = Some supplied) ->
  promise (log (run (asyncHandlerFactory corsOpts req) w))
  = if truthy (error (resolved corsOpts req))
    then Rejected (error (resolved corsOpts req))
    else match get (origin (spread defaults supplied)) with
         | Some (Callback f) =>
             match timing (f (Req.headers req !! "origin")) with
             | Sync =>
                 if truthy (error (f (Req.headers req !! "origin")))
                 then Rejected (error (f (Req.headers req !! "origin")))
                 else Fulfilled
             | Async => Fulfilled
             end
         | _ => Fulfilled
         end.
Proof.
  intros Hlog Hd Hs.
  assert (forall err, logs_only (settle err)) as Hsettle
    by (intros err; unfold settle; destruct (truthy err); apply logs_only_emit).
  unfold asyncHandlerFactory, expressMiddlewareFactory.
  rewrite (corsMiddleware_any settle Hsettle corsOpts req w supplied Hd Hs), Hlog.
  cbn [app].
  rewrite promise_through_settle by apply host_calls_of_options_calls.
  unfold options_calls.
  destruct (truthy (error (resolved corsOpts req))) eqn:He; [cbn; now rewrite He|].
  cbv zeta.
  destruct (get (origin (spread defaults supplied))) as [[og|f]|]; [| |reflexivity].
  - destruct (truthy_origin og) eqn:Hog; [|reflexivity].
    unfold origin_calls. cbn [truthy orb]. rewrite Hog. cbn [negb].
    now rewrite first_next_actions_then.
  - destruct (timing (f (Req.headers req !! "origin"))); [|reflexivity].
    unfold origin_calls.
    destruct (result (f (Req.headers req !! "origin"))) as [og|].
    + destruct (truthy (error (f (Req.headers req !! "origin")))) eqn:Herr.
      * cbn. now rewrite Herr.
      * cbn [orb]. destruct (negb (truthy_origin og)).
        -- cbn. now rewrite Herr.
        -- now rewrite first_next_actions_then.
    + cbn. destruct (truthy (error (f (Req.headers req !! "origin")))); reflexivity.
Qed.

Lemma promise_settlement_witness :
  promise (log (run (asyncHandlerFactory (Object caller_options) (GET ∅))
                  (world_with (callback_options quick_failure))))
  = Rejected (VError "origin lookup failed").
Proof.
  exact (promise_settlement (Object caller_options) (GET ∅)
           (world_with (callback_options quick_failure))
           (callback_options quick_failure) eq_refl eq_refl (fun _ => eq_refl)).
Defined.

(** ** Continued preflights *)

(** X20: [preflightContinue] changes nothing but the way a preflight is
    finished: with it the handler makes the same header calls, in the same
    order, as without it, and then calls the continuation instead of
    assigning the status and ending the response. *)
Theorem preflight_continue_keeps_headers options req :
  isPreflight req = true ->
  exists cors_headers,
    Forall (fun e => is_header_call e = true) cors_headers
    /\ actions (with_preflightContinue options true) req
       = cors_headers ++ [Next VUndefined]
    /\ actions (with_preflightContinue options false) req
       = cors_headers
         ++ [StatusCode (get (optionsSuccessStatus options));
             SetHeader "Content-Length" "0"; End].
Proof.
  intros Hp.
  exists (trace (originHeaders options req) ++ trace (credentialsHeaders options)
          ++ trace (methodsHeaders options) ++ trace (allowedHeaders_ options req)
          ++ trace (cacheHeaders options) ++ trace (exposedHeaders_ options)).
  split; [|split].
  - repeat (apply Forall_app; split);
      eauto using only_touches_header_calls, originHeaders_touches,
        credentialsHeaders_touches, methodsHeaders_touches, allowedHeaders_touches,
        cacheHeaders_touches, exposedHeaders_touches.
  - rewrite (actions_preflight _ req Hp), <- !app_assoc. reflexivity.
  - rewrite (actions_preflight _ req Hp), <- !app_assoc. reflexivity.
Qed.

Lemma preflight_continue_witness :
  exists cors_headers,
    Forall (fun e => is_header_call e = true) cors_headers
    /\ actions (with_preflightContinue everything_configured true)
         (OPTIONS {["origin" := "http://a.com"]})
       = cors_headers ++ [Next VUndefined]
    /\ actions (with_preflightContinue everything_configured false)
         (OPTIONS {["origin" := "http://a.com"]})
       = cors_headers
         ++ [StatusCode (Some 204); SetHeader "Content-Length" "0"; End].
Proof.
  exact (preflight_continue_keeps_headers everything_configured
           (OPTIONS {["origin" := "http://a.com"]}) eq_refl).
Defined.

(** ** Determinism of the handler, and patterns that keep a position *)

Lemma test_unflagged r s st :
  Flagged.global_or_sticky r = false ->
  Flagged.test r s st = (allowed s (Flagged.plain_item (Flagged.IRegExp r)), st).
Proof. intros Hflag. unfold Flagged.test. rewrite Hflag. reflexivity. Qed.

Lemma allowed_unflagged origin i st :
  Flagged.unflagged_item i = true ->
  Flagged.allowed origin i st = (allowed origin (Flagged.plain_item i), st).
Proof.
  destruct i as [b|s|r]; intros Hflag; try reflexivity.
  apply test_unflagged. now apply negb_true_iff in Hflag.
Qed.

Lemma truthy_plain_item i : truthy_item (Flagged.plain_item i) = Flagged.truthy_item i.
Proof. now destruct i. Qed.

Lemma find_unflagged origin l st :
  forallb Flagged.unflagged_item l = true ->
  Flagged.find origin l st
  = (List.find (fun x => allowed origin (Flagged.plain_item x)) l, st).
Proof.
  induction l as [|x rest IH]; intros Hflags; [reflexivity|].
  cbn [forallb] in Hflags. apply andb_true_iff in Hflags as [Hx Hrest].
  cbn [Flagged.find List.find]. rewrite (allowed_unflagged _ _ _ Hx).
  destruct (allowed origin (Flagged.plain_item x)); [reflexivity|].
  now apply IH.
Qed.

Lemma find_map_plain origin l :
  List.find (allowed origin) (List.map Flagged.plain_item l)
  = option_map Flagged.plain_item
      (List.find (fun x => allowed origin (Flagged.plain_item x)) l).
Proof.
  induction l as [|x rest IH]; [reflexivity|].
  cbn [List.map List.find]. now destruct (allowed origin (Flagged.plain_item x)).
Qed.

Lemma isOriginAllowed_unflagged origin policy st :
  Flagged.unflagged (Some policy) = true ->
  Flagged.isOriginAllowed origin policy st
  = (isOriginAllowed origin (Flagged.plain policy), st).
Proof.
  destruct policy as [i|l]; cbn [Flagged.unflagged]; intros Hflags.
  - now apply allowed_unflagged.
  - cbn [Flagged.isOriginAllowed Flagged.plain isOriginAllowed].
    rewrite (find_unflagged _ _ _ Hflags), find_map_plain.
    destruct (List.find _ l) as [found|]; cbn [option_map]; [|reflexivity].
    now rewrite truthy_plain_item.
Qed.

Lemma originHeaders_unflagged options req st :
  Flagged.unflagged (get (origin options)) = true ->
  Flagged.originHeaders options req st
  = (originHeaders (Flagged.plain_options options) req, st).
Proof.
  unfold Flagged.originHeaders, originHeaders, Flagged.plain_options.
  cbn [origin]. destruct (origin options) as [| |policy]; cbn [get]; try reflexivity.
  intros Hflags.
  assert (truthy_origin (Flagged.plain policy) = Flagged.truthy_policy policy) as ->
    by (destruct policy as [i|l]; [apply truthy_plain_item | reflexivity]).
  assert (isString (Flagged.plain policy) = Flagged.isString policy) as ->
    by (destruct policy as [[b|s|r]|l]; reflexivity).
  destruct (_ || _); [reflexivity|].
  destruct (Flagged.isString policy); [reflexivity|].
  now rewrite (isOriginAllowed_unflagged _ _ _ Hflags).
Qed.

Lemma corsHandler_unflagged options req next st :
  Flagged.unflagged (get (origin options)) = true ->
  Flagged.corsHandler options req next st
  = (corsHandler (Flagged.plain_options options) req next, st).
Proof.
  intros Hflags. unfold Flagged.corsHandler, corsHandler.
  rewrite (originHeaders_unflagged _ _ _ Hflags).
  now destruct (isPreflight req).
Qed.

(** C9, as the specification words it, fails: with the origin policy
    [/\.b\.com$/g] and a request from [http://x.b.com], the first invocation
    reflects the origin and leaves the position of the pattern at the end of
    the subject; the second invocation, with the same options and the same
    request, finds that position, sets no header and only continues. *)
Lemma flagged_pattern_alternates :
  let options := Flagged.origin_only (Flagged.One (Flagged.IRegExp Flagged.b_com_g)) in
  let req := GET {[ "origin" := "http://x.b.com" ]} in
  Flagged.calls options req Flagged.fresh
  = [Vary "Origin";
     SetHeader "Access-Control-Allow-Origin" "http://x.b.com";
     Next VUndefined]
  /\ Flagged.calls options req (Flagged.leaves options req Flagged.fresh)
     = [Next VUndefined]
  /\ ~ Flagged.deterministic options req.
Proof.
  assert (Flagged.calls
            (Flagged.origin_only (Flagged.One (Flagged.IRegExp Flagged.b_com_g)))
            (GET {[ "origin" := "http://x.b.com" ]}) Flagged.fresh
          = [Vary "Origin";
             SetHeader "Access-Control-Allow-Origin" "http://x.b.com";
             Next VUndefined]) as Hfirst by (vm_compute; reflexivity).
  assert (Flagged.calls
            (Flagged.origin_only (Flagged.One (Flagged.IRegExp Flagged.b_com_g)))
            (GET {[ "origin" := "http://x.b.com" ]})
            (Flagged.leaves
               (Flagged.origin_only (Flagged.One (Flagged.IRegExp Flagged.b_com_g)))
               (GET {[ "origin" := "http://x.b.com" ]}) Flagged.fresh)
          = [Next VUndefined]) as Hsecond by (vm_compute; reflexivity).
  cbv zeta. split; [exact Hfirst|]. split; [exact Hsecond|].
  intros Hdet. rewrite (Hdet _ Flagged.fresh), Hfirst in Hsecond. discriminate.
Qed.

(** C9, as amended: when no RegExp of the origin policy carries the [g] or
    the [y] flag, the handler is deterministic.  Whatever positions and
    whatever world an invocation finds, it leaves the positions as they
    were, leaves the heap alone and appends the same calls: those of the
    handler for the policy read without positions (the headers with their
    values, the additions to Vary and the way the request is finished). *)
Theorem handler_deterministic_unflagged options req :
  Flagged.unflagged (get (origin options)) = true ->
  Flagged.deterministic options req
  /\ forall st w,
       Flagged.leaves options req st = st
       /\ run (fst (Flagged.corsHandler options req host_next st)) w
          = mkWorld (heap w)
                    (log w ++ actions (Flagged.plain_options options) req).
Proof.
  intros Hflags. split.
  - intros st st'. unfold Flagged.calls.
    now rewrite !(corsHandler_unflagged _ _ _ _ Hflags).
  - intros st w. unfold Flagged.leaves.
    rewrite (corsHandler_unflagged _ _ _ _ Hflags). split; [reflexivity|].
    cbn [fst]. apply run_logs_only, corsHandler_logs.
Qed.

Lemma handler_deterministic_unflagged_witness :
  let options :=
    Flagged.origin_only
      (Flagged.Many [Flagged.IStr "http://a.com"; Flagged.IRegExp Flagged.b_com]) in
  let req := OPTIONS {[ "origin" := "http://x.b.com" ]} in
  Flagged.unflagged (get (origin options)) = true
  /\ Flagged.deterministic options req
  /\ forall st w,
       Flagged.leaves options req st = st
       /\ run (fst (Flagged.corsHandler options req host_next st)) w
          = mkWorld (heap w)
                    (log w ++ actions (Flagged.plain_options options) req).
Proof.
  cbv zeta. split; [reflexivity|].
  apply (handler_deterministic_unflagged
           (Flagged.origin_only
              (Flagged.Many [Flagged.IStr "http://a.com"; Flagged.IRegExp Flagged.b_com]))
           (OPTIONS {[ "origin" := "http://x.b.com" ]})).
  reflexivity.
Defined.
